(** * daaskobot: the repository's scripts, schema, configuration and
      mini-app glue, embedded and verified.

    The development follows the repository's layout:
    - [CheckFiles]   : [check_files.sh], the required-files check;
    - [Schema]       : [db/schema.sql], the DDL as data;
    - [Relational]   : what those declarations mean for stored rows (the
                       tests an INSERT makes, the ON DELETE actions);
    - [ViteConfig]   : [frontend-miniapp/vite.config.js];
    - [JS]           : the fragment of the JavaScript host the mini-app
                       code runs against (values, [JSON.stringify], the
                       Telegram web-view bridge, an effect monad);
    - [TelegramUtils]: [src/utils/telegram.js];
    - [Plans]        : [components/SubscriptionsPlans.jsx];
    - [App]          : [src/App.jsx];
    - [Fixtures], [Hosts]: sample databases and hosts.

    The properties come after the definitions, file by file. *)

From Stdlib Require Import List String Ascii Bool Arith ZArith Lia.
From Stdlib Require Import DecimalString.
Import ListNotations.

Set Warnings "-register-all".

Local Open Scope list_scope.
Local Open Scope string_scope.

(* ===================================================================== *)
(** ** check_files.sh *)
(* ===================================================================== *)

Module CheckFiles.

(** What a path resolves to in the working directory, after symbolic
    links are followed (which is what the [-f] test looks at). *)
Inductive file_kind := Regular | Directory | Special.

(** A filesystem state, seen from the directory the script runs in. *)
Definition filesystem := string -> option file_kind.

(** [[[ -f "$f" ]]]: the path exists and is a regular file. *)
Definition test_f (fs : filesystem) (f : string) : bool :=
  match fs f with
  | Some Regular => true
  | _ => false
  end.

(** [required=( ... )], lines 3-20. *)
Definition required : list string :=
  [ "backend/requirements.txt"
  ; "backend/app/main.py"
  ; "backend/app/bot_worker.py"
  ; "backend/app/services/db.py"
  ; "backend/app/handlers/start.py"
  ; "backend/app/models.py"
  ; "backend/app/services/payments.py"
  ; "db/schema.sql"
  ; "frontend-miniapp/package.json"
  ; "frontend-miniapp/index.html"
  ; "frontend-miniapp/vite.config.js"
  ; "frontend-miniapp/src/main.jsx"
  ; "frontend-miniapp/src/App.jsx"
  ; "frontend-miniapp/src/utils/telegram.js"
  ; ".gitignore"
  ; "backend/.env" ].

(** The loop of lines 22-27: [missing=()] and then, for each [f] of
    [required] in order, [missing+=("$f")] when the [-f] test fails. *)
Definition loop_body (fs : filesystem) (missing : list string) (f : string)
  : list string :=
  if negb (test_f fs f) then (missing ++ [f])%list else missing.

Definition collect_missing (fs : filesystem) (req : list string) : list string :=
  fold_left (loop_body fs) req [].

(** What a run of the script leaves behind: the lines written to standard
    output and the exit status. *)
Record run := { stdout : list string; exit_status : nat }.

Definition msg_present : string := "✔ All expected files are present.".
Definition msg_missing : string := "✖ Missing files:".

(** Lines 29-36. *)
Definition check_files (fs : filesystem) : run :=
  let missing := collect_missing fs required in
  if Nat.eqb (List.length missing) 0 then
    {| stdout := [msg_present]; exit_status := 0 |}
  else
    {| stdout := msg_missing :: map (fun m => " - " ++ m) missing;
       exit_status := 2 |}.

(** The required paths that are not regular files, in list order. *)
Definition absent (fs : filesystem) : list string :=
  filter (fun f => negb (test_f fs f)) required.

End CheckFiles.

(* ===================================================================== *)
(** ** db/schema.sql *)
(* ===================================================================== *)

Module Schema.

(** *** The DDL as data *)

(** Column types.  The first seven are PostgreSQL's own; [Tcustom] stands
    for a type the script would have had to create itself. *)
Inductive sql_type :=
| Tuuid | Ttext | Tbigint | Ttimestamptz | Tboolean | Tnumeric | Tjsonb
| Tcustom (name : string).

(** Stored values.  [Vnull] inhabits every column type. *)
Inductive value :=
| Vnull
| Vuuid (u : N)
| Vtext (s : string)
| Vbigint (z : Z)
| Vtimestamptz (micros : Z)
| Vboolean (b : bool)
| Vnumeric (unscaled : Z) (scale : nat)
| Vjsonb (doc : string).

Inductive default_expr :=
| Dcall (fn : string)            (* gen_random_uuid(), now() *)
| Dtext (s : string)             (* 'en' *)
| Dbool (b : bool).              (* false, true *)

(** Referential actions: the script writes ON DELETE CASCADE or nothing,
    and nothing means NO ACTION. *)
Inductive ref_action := NoAction | Cascade.

Inductive column_constraint :=
| PrimaryKey
| NotNull
| Default (e : default_expr)
| References (tbl col : string) (on_delete : ref_action)
| ColUnique
| ColCheck (holds : value -> bool)
| GeneratedAlways (expr : string).

Inductive table_constraint :=
| Unique (cols : list string)
| TablePrimaryKey (cols : list string)
| ForeignKey (cols : list string) (tbl : string) (refcols : list string)
             (on_delete : ref_action)
| TableCheck (expr : string).

Record column := Col
  { col_name : string;
    col_type : sql_type;
    col_constraints : list column_constraint }.

Record table := Tbl
  { tbl_name : string;
    tbl_columns : list column;
    tbl_constraints : list table_constraint }.

Inductive statement :=
| CreateTable (t : table)
| CreateType (name : string)
| CreateView (name : string)
| CreateFunction (name : string)
| CreateTrigger (name : string)
| CreateIndex (name : string).

Definition pk_uuid : column :=
  Col "id" Tuuid [PrimaryKey; Default (Dcall "gen_random_uuid")].
Definition tenant_ref : column :=
  Col "tenant_id" Tuuid [References "tenants" "id" Cascade].
Definition stamped (name : string) : column :=
  Col name Ttimestamptz [Default (Dcall "now")].

(** Lines 3-8. *)
Definition tenants : table :=
  Tbl "tenants"
    [ pk_uuid
    ; Col "name" Ttext [NotNull]
    ; Col "owner_user_id" Tbigint [NotNull]
    ; stamped "created_at" ]
    [].

(** Lines 10-23. *)
Definition users : table :=
  Tbl "users"
    [ pk_uuid
    ; tenant_ref
    ; Col "tg_user_id" Tbigint [NotNull]
    ; Col "username" Ttext []
    ; Col "first_name" Ttext []
    ; Col "last_name" Ttext []
    ; Col "phone" Ttext []
    ; Col "country" Ttext []
    ; Col "language" Ttext [Default (Dtext "en")]
    ; Col "is_premium" Tboolean [Default (Dbool false)]
    ; stamped "created_at" ]
    [ Unique ["tenant_id"; "tg_user_id"] ].

(** Lines 25-34. *)
Definition chats : table :=
  Tbl "chats"
    [ pk_uuid
    ; tenant_ref
    ; Col "tg_chat_id" Tbigint [NotNull]
    ; Col "title" Ttext []
    ; Col "type" Ttext []
    ; Col "is_active" Tboolean [Default (Dbool true)]
    ; stamped "created_at" ]
    [ Unique ["tenant_id"; "tg_chat_id"] ].

(** Lines 36-44. *)
Definition invite_links : table :=
  Tbl "invite_links"
    [ pk_uuid
    ; tenant_ref
    ; Col "chat_id" Tuuid [References "chats" "id" Cascade]
    ; Col "invite_link" Ttext [NotNull]
    ; Col "campaign_name" Ttext []
    ; Col "created_by" Tbigint []
    ; stamped "created_at" ]
    [].

(** Lines 46-54. *)
Definition join_events : table :=
  Tbl "join_events"
    [ pk_uuid
    ; tenant_ref
    ; Col "chat_id" Tuuid [References "chats" "id" Cascade]
    ; Col "tg_user_id" Tbigint []
    ; Col "invite_link_id" Tuuid [References "invite_links" "id" NoAction]
    ; Col "event_type" Ttext []
    ; stamped "join_at" ]
    [].

(** Lines 56-67.  The source comments [provider] with
    ['stars'|'crypto'|'stripe' etc.]. *)
Definition subscriptions : table :=
  Tbl "subscriptions"
    [ pk_uuid
    ; tenant_ref
    ; Col "tg_user_id" Tbigint []
    ; Col "plan" Ttext []
    ; Col "currency" Ttext []
    ; Col "amount" Tnumeric []
    ; Col "provider" Ttext []
    ; Col "provider_payload" Tjsonb []
    ; stamped "started_at"
    ; Col "expires_at" Ttimestamptz [] ]
    [].

(** Lines 69-79. *)
Definition payments : table :=
  Tbl "payments"
    [ pk_uuid
    ; tenant_ref
    ; Col "tg_user_id" Tbigint []
    ; Col "amount" Tnumeric []
    ; Col "currency" Ttext []
    ; Col "method" Ttext []
    ; Col "provider_payload" Tjsonb []
    ; Col "status" Ttext []
    ; stamped "created_at" ]
    [].

(** The script, statement by statement. *)
Definition script : list statement :=
  [ CreateTable tenants; CreateTable users; CreateTable chats
  ; CreateTable invite_links; CreateTable join_events
  ; CreateTable subscriptions; CreateTable payments ].

Definition tables_of (ss : list statement) : list table :=
  flat_map (fun s => match s with CreateTable t => [t] | _ => [] end) ss.

Definition schema : list table := tables_of script.

Definition table_names : list string := map tbl_name schema.

(** *** Classifying what the script declares *)

Definition is_create_table (s : statement) : bool :=
  match s with CreateTable _ => true | _ => false end.

Definition builtin_type (ty : sql_type) : bool :=
  match ty with Tcustom _ => false | _ => true end.

Definition is_primary_key (c : column_constraint) : bool :=
  match c with PrimaryKey => true | _ => false end.
Definition is_foreign_key (c : column_constraint) : bool :=
  match c with References _ _ _ => true | _ => false end.
Definition is_not_null (c : column_constraint) : bool :=
  match c with NotNull => true | _ => false end.
Definition is_default (c : column_constraint) : bool :=
  match c with Default _ => true | _ => false end.

(** A column-level item that restricts the rows the table accepts: every
    kind but DEFAULT, which only fills in a value. *)
Definition restricts (c : column_constraint) : bool := negb (is_default c).

(** The restricting column constraints of a table, with their columns. *)
Definition column_restrictions (t : table) : list (string * column_constraint) :=
  flat_map (fun c => map (fun k => (col_name c, k))
                         (filter restricts (col_constraints c)))
           (tbl_columns t).

Definition is_unique (k : table_constraint) : bool :=
  match k with Unique _ => true | _ => false end.

(** The UNIQUE constraints of the whole schema, with their tables. *)
Definition uniques (s : list table) : list (string * list string) :=
  flat_map (fun t =>
    flat_map (fun k => match k with Unique cols => [(tbl_name t, cols)] | _ => [] end)
             (tbl_constraints t)
    ++ flat_map (fun c => if existsb (fun k => match k with ColUnique => true | _ => false end)
                                     (col_constraints c)
                          then [(tbl_name t, [col_name c])] else [])
                (tbl_columns t))%list s.

Definition find_column (t : table) (name : string) : option column :=
  find (fun c => String.eqb (col_name c) name) (tbl_columns t).

Definition find_table (s : list table) (name : string) : option table :=
  find (fun t => String.eqb (tbl_name t) name) s.

Definition is_cascade (a : ref_action) : bool :=
  match a with Cascade => true | NoAction => false end.

(** [t] has a column [tenant_id uuid REFERENCES tenants(id) ON DELETE CASCADE]. *)
Definition references_tenant (t : table) : bool :=
  match find_column t "tenant_id" with
  | Some c =>
      existsb (fun k => match k with
                        | References "tenants" "id" Cascade => true
                        | _ => false
                        end) (col_constraints c)
  | None => false
  end.

Definition is_col_unique (c : column_constraint) : bool :=
  match c with ColUnique => true | _ => false end.

(** The columns declared NOT NULL, with their tables. *)
Definition not_nulls (s : list table) : list (string * string) :=
  flat_map (fun t =>
    flat_map (fun c => if existsb is_not_null (col_constraints c)
                       then [(tbl_name t, col_name c)] else [])
             (tbl_columns t)) s.

(** The columns declared PRIMARY KEY, with their tables. *)
Definition primary_keys (s : list table) : list (string * string) :=
  flat_map (fun t =>
    flat_map (fun c => if existsb is_primary_key (col_constraints c)
                       then [(tbl_name t, col_name c)] else [])
             (tbl_columns t)) s.

End Schema.

(* ===================================================================== *)
(** ** What the declarations of db/schema.sql mean for stored rows *)
(* ===================================================================== *)

Module Relational.
Import Schema.

Definition value_eqb (a b : value) : bool :=
  match a, b with
  | Vnull, Vnull => true
  | Vuuid x, Vuuid y => N.eqb x y
  | Vtext x, Vtext y => String.eqb x y
  | Vbigint x, Vbigint y => Z.eqb x y
  | Vtimestamptz x, Vtimestamptz y => Z.eqb x y
  | Vboolean x, Vboolean y => Bool.eqb x y
  | Vnumeric x i, Vnumeric y j => Z.eqb x y && Nat.eqb i j
  | Vjsonb x, Vjsonb y => String.eqb x y
  | _, _ => false
  end.

Definition is_null (v : value) : bool :=
  match v with Vnull => true | _ => false end.

(** A value fits a column type; [bigint] is a signed 64-bit integer. *)
Definition has_type (v : value) (ty : sql_type) : bool :=
  match v, ty with
  | Vnull, _ => true
  | Vuuid _, Tuuid => true
  | Vtext _, Ttext => true
  | Vbigint z, Tbigint => ((- 2 ^ 63 <=? z) && (z <? 2 ^ 63))%Z
  | Vtimestamptz _, Ttimestamptz => true
  | Vboolean _, Tboolean => true
  | Vnumeric _ _, Tnumeric => true
  | Vjsonb _, Tjsonb => true
  | _, _ => false
  end.

(** A stored row: column name to value, defaults already filled in.  A
    column the row does not list is NULL. *)
Definition row := list (string * value).

Fixpoint field (r : row) (name : string) : value :=
  match r with
  | [] => Vnull
  | (k, v) :: r' => if String.eqb k name then v else field r' name
  end.

(** The rows of every table, by table name. *)
Definition database := string -> list row.

Definition empty_db : database := fun _ => [].

Definition set_table (db : database) (tbl : string) (rows : list row) : database :=
  fun name => if String.eqb name tbl then rows else db name.

(** One column constraint, as a test on the value stored in the column.
    Keys and references are tests on the whole table and are below. *)
Definition constraint_admits (k : column_constraint) (v : value) : bool :=
  match k with
  | NotNull => negb (is_null v)
  | PrimaryKey => negb (is_null v)
  | ColCheck holds => is_null v || holds v
  | _ => true
  end.

Definition column_admits (c : column) (v : value) : bool :=
  has_type v (col_type c)
  && forallb (fun k => constraint_admits k v) (col_constraints c).

Definition row_admitted (t : table) (r : row) : bool :=
  forallb (fun c => column_admits c (field r (col_name c))) (tbl_columns t)
  && forallb (fun kv => match find_column t (fst kv) with
                        | Some _ => true | None => false end) r.

(** Foreign keys, flattened out of the column declarations. *)
Record fkey := FK
  { fk_table : string; fk_col : string;
    fk_ref_table : string; fk_ref_col : string;
    fk_action : ref_action }.

Definition foreign_keys (s : list table) : list fkey :=
  flat_map (fun t =>
    flat_map (fun c =>
      flat_map (fun k => match k with
                         | References rt rc a => [FK (tbl_name t) (col_name c) rt rc a]
                         | _ => []
                         end) (col_constraints c))
      (tbl_columns t)) s.

(** Row [r] of the referencing table points, through [fk], at one of the
    rows [parents] of the referenced table.  NULL points at nothing. *)
Definition refers (fk : fkey) (parents : list row) (r : row) : bool :=
  let v := field r (fk_col fk) in
  negb (is_null v)
  && existsb (fun p => value_eqb (field p (fk_ref_col fk)) v) parents.

(** Every non-NULL reference has its target. *)
Definition fkey_holds (db : database) (fk : fkey) : bool :=
  forallb (fun r => is_null (field r (fk_col fk))
                    || refers fk (db (fk_ref_table fk)) r)
          (db (fk_table fk)).

Definition referential_integrity (fks : list fkey) (db : database) : bool :=
  forallb (fkey_holds db) fks.

(** [DELETE FROM tbl WHERE doomed]: the rows go, and so do, through every
    ON DELETE CASCADE key that references [tbl], the rows that pointed at
    them, and so on.  [fuel] bounds the depth of the cascade. *)
Fixpoint delete_where (fuel : nat) (fks : list fkey) (db : database)
         (tbl : string) (doomed : row -> bool) : database :=
  match fuel with
  | O => db
  | S fuel' =>
      let gone := filter doomed (db tbl) in
      let db1 := set_table db tbl (filter (fun r => negb (doomed r)) (db tbl)) in
      fold_left
        (fun d fk =>
           if String.eqb (fk_ref_table fk) tbl && is_cascade (fk_action fk)
           then delete_where fuel' fks d (fk_table fk) (refers fk gone)
           else d)
        fks db1
  end.

(** The key that ties a table to its tenant. *)
Definition tenant_key (tbl : string) : fkey := FK tbl "tenant_id" "tenants" "id" Cascade.

Definition has_id (t : N) (r : row) : bool := value_eqb (field r "id") (Vuuid t).

Definition owned_by (t : N) (r : row) : bool :=
  value_eqb (field r "tenant_id") (Vuuid t).

(** The state the cascade of [DELETE FROM tenants WHERE id = t] reaches,
    over the keys [fks] and with cascades followed [fuel] deep. *)
Definition cascade_tenant_with (fks : list fkey) (fuel : nat)
           (db : database) (t : N) : database :=
  delete_where fuel fks db "tenants" (has_id t).

(** The statement as a whole: the references that are left are checked
    when the cascade is over, and a dangling one (a NO ACTION key whose
    target went) makes the statement fail and leaves the database as it
    was. *)
Definition delete_tenant_with (fks : list fkey) (fuel : nat)
           (db : database) (t : N) : option database :=
  let db' := cascade_tenant_with fks fuel db t in
  if referential_integrity fks db' then Some db' else None.

(** Over the schema of the script.  A cascade is never deeper than the
    schema has tables. *)
Definition cascade_tenant : database -> N -> database :=
  cascade_tenant_with (foreign_keys schema) (S (List.length schema)).

Definition delete_tenant : database -> N -> option database :=
  delete_tenant_with (foreign_keys schema) (S (List.length schema)).

(** [INSERT] of one complete row: types and column constraints, primary
    key and UNIQUE (NULLs never collide), references. *)
Definition same_on (cols : list string) (r r' : row) : bool :=
  forallb (fun c => negb (is_null (field r c)) && value_eqb (field r c) (field r' c)) cols.

Definition key_columns (t : table) : list (list string) :=
  (flat_map (fun c => if existsb (fun k => is_primary_key k
                                           || match k with ColUnique => true | _ => false end)
                                 (col_constraints c)
                      then [[col_name c]] else []) (tbl_columns t)
   ++ flat_map (fun k => match k with
                         | Unique cols => [cols]
                         | TablePrimaryKey cols => [cols]
                         | _ => []
                         end) (tbl_constraints t))%list.

Definition keys_free (t : table) (rows : list row) (r : row) : bool :=
  forallb (fun cols => negb (existsb (same_on cols r) rows)) (key_columns t).

Definition references_resolve (db : database) (t : table) (r : row) : bool :=
  forallb (fun fk => negb (String.eqb (fk_table fk) (tbl_name t))
                     || is_null (field r (fk_col fk))
                     || refers fk (db (fk_ref_table fk)) r)
          (foreign_keys schema).

Definition insert (db : database) (tbl : string) (r : row) : option database :=
  match find_table schema tbl with
  | None => None
  | Some t =>
      if row_admitted t r && keys_free t (db tbl) r && references_resolve db t r
      then Some (set_table db tbl (db tbl ++ [r])%list)
      else None
  end.

End Relational.

(* ===================================================================== *)
(** ** frontend-miniapp/vite.config.js *)
(* ===================================================================== *)

Module ViteConfig.

(** [server.host] is a string or a boolean. *)
Inductive host_option := HostFlag (b : bool) | HostName (h : string).

Record server_options := ServerOptions
  { host : host_option;
    port : N;
    strictPort : bool;
    allowedHosts : list string }.

Record user_config := UserConfig
  { plugins : list string;
    server : server_options }.

(** Lines 4-15, the object handed to [defineConfig] (which returns it). *)
Definition config : user_config :=
  {| plugins := ["react"];
     server :=
       {| host := HostFlag true;
          port := 5173;
          strictPort := true;
          allowedHosts := [".ngrok-free.app"; ".trycloudflare.com"; "localhost"] |} |}.

(** What the dev server makes of [host] and of [port]/[strictPort] when it
    starts: [true] binds every interface, an absent or [false] host binds
    localhost; a port in use is an error under [strictPort] and is
    otherwise stepped over. *)
Inductive bind_address := AllInterfaces | Localhost | Named (h : string).

Definition resolve_host (h : host_option) : bind_address :=
  match h with
  | HostFlag true => AllInterfaces
  | HostFlag false => Localhost
  | HostName n => Named n
  end.

(** The first port from [p] on that is free, looking at most [tries] ports
    further. *)
Fixpoint next_free (in_use : N -> bool) (p : N) (tries : nat) : option N :=
  if in_use p then
    match tries with
    | O => None
    | S tries' => next_free in_use (N.succ p) tries'
    end
  else Some p.

Definition listen (in_use : N -> bool) (strict : bool) (p : N) : option N :=
  if in_use p then
    if strict then None else next_free in_use (N.succ p) (N.to_nat (65535 - p))
  else Some p.

Definition start (c : user_config) (in_use : N -> bool) : option (bind_address * N) :=
  match listen in_use (strictPort (server c)) (port (server c)) with
  | Some p => Some (resolve_host (host (server c)), p)
  | None => None
  end.

End ViteConfig.

(* ===================================================================== *)
(** ** The JavaScript host the mini-app code runs against *)
(* ===================================================================== *)

Module JS.

(** A safe integer: an integer of magnitude at most 2^53 - 1, which a
    Number holds exactly and prints in plain decimal digits. *)
Record safe_integer := SafeInteger
  { int_value : Z;
    int_safe : (Z.abs int_value <=? 9007199254740991)%Z = true }.

Inductive exn :=
| TypeError (msg : string)
| HostError (msg : string).

(** How an evaluation ends. *)
Inductive completion (A : Type) :=
| Normal (a : A)
| Throw (e : exn).
Arguments Normal {A} a.
Arguments Throw {A} e.

(** Values that can be handed to [sendDataToBot].  [JInt] is a Number that
    holds a safe integer; other Numbers (larger ones, fractions, NaN,
    infinities, negative zero) are left out of the fragment.  A string is
    a sequence of code units below 256.  A [JFunction] says how a call of
    it with one string argument ends, which is what [JSON.stringify] asks
    of a [toJSON] method; functions and arrays have no [toJSON] of their
    own, and none is added to a prototype.  The list of a [JObject] holds
    its properties in property order, each name once: the own enumerable
    string-keyed data properties (no getters) and, under the name
    [toJSON], the [toJSON] method the object has or inherits, if any. *)
Inductive value :=
| JUndefined
| JNull
| JBool (b : bool)
| JInt (n : safe_integer)
| JBigInt (z : Z)
| JString (s : string)
| JSymbol (description : string)
| JFunction (name : string) (returns : string -> completion value)
| JArray (elems : list value)
| JObject (props : list (string * value)).

(** *** JSON.stringify(value), with no replacer and no indentation *)

Definition dquote : string := String "034"%char EmptyString.
Definition backslash : ascii := "092"%char.

Definition hex_digit (n : nat) : ascii :=
  match n with
  | 0 => "0" | 1 => "1" | 2 => "2" | 3 => "3" | 4 => "4" | 5 => "5" | 6 => "6"
  | 7 => "7" | 8 => "8" | 9 => "9" | 10 => "a" | 11 => "b" | 12 => "c"
  | 13 => "d" | 14 => "e" | _ => "f"
  end%char.

Definition escape_char (c : ascii) : string :=
  let n := nat_of_ascii c in
  if Nat.eqb n 8 then "\b"
  else if Nat.eqb n 9 then "\t"
  else if Nat.eqb n 10 then "\n"
  else if Nat.eqb n 12 then "\f"
  else if Nat.eqb n 13 then "\r"
  else if Nat.eqb n 34 then String backslash dquote
  else if Nat.eqb n 92 then String backslash (String backslash EmptyString)
  else if Nat.ltb n 32 then
    "\u00" ++ String (hex_digit (n / 16)) (String (hex_digit (n mod 16)) EmptyString)
  else String c EmptyString.

Fixpoint escape (s : string) : string :=
  match s with
  | EmptyString => EmptyString
  | String c s' => escape_char c ++ escape s'
  end.

Definition quote (s : string) : string := dquote ++ escape s ++ dquote.

Definition decimal (z : Z) : string := NilZero.string_of_int (Z.to_int z).

Fixpoint join (sep : string) (l : list string) : string :=
  match l with
  | [] => EmptyString
  | [x] => x
  | x :: l' => x ++ sep ++ join sep l'
  end.

(** The property with the given key and value, serialised.  With
    [use_toJSON] the value's [toJSON], if any, is called first and its
    result serialised without a second call.  The result is [None] where
    JavaScript gives [undefined]. *)
Fixpoint serialize (use_toJSON : bool) (key : string) (v : value) {struct v}
  : completion (option string) :=
  match v with
  | JUndefined => Normal None
  | JFunction _ _ => Normal None
  | JSymbol _ => Normal None
  | JNull => Normal (Some "null")
  | JBool true => Normal (Some "true")
  | JBool false => Normal (Some "false")
  | JInt n => Normal (Some (decimal (int_value n)))
  | JBigInt _ => Throw (TypeError "Do not know how to serialize a BigInt")
  | JString s => Normal (Some (quote s))
  | JArray elems =>
      let fix items (i : nat) (l : list value) : completion (list string) :=
        match l with
        | [] => Normal []
        | x :: l' =>
            match serialize true (decimal (Z.of_nat i)) x with
            | Throw e => Throw e
            | Normal o =>
                match items (S i) l' with
                | Throw e => Throw e
                | Normal ss =>
                    Normal (match o with Some s => s | None => "null" end :: ss)
                end
            end
        end in
      match items 0 elems with
      | Throw e => Throw e
      | Normal ss => Normal (Some ("[" ++ join "," ss ++ "]"))
      end
  | JObject props =>
      let fix members (l : list (string * value)) : completion (list string) :=
        match l with
        | [] => Normal []
        | (k, x) :: l' =>
            match serialize true k x with
            | Throw e => Throw e
            | Normal o =>
                match members l' with
                | Throw e => Throw e
                | Normal ss =>
                    Normal (match o with
                            | Some s => (quote k ++ ":" ++ s) :: ss
                            | None => ss
                            end)
                end
            end
        end in
      let fix by_toJSON (l : list (string * value))
        : option (completion (option string)) :=
        match l with
        | [] => None
        | (k, x) :: l' =>
            match x with
            | JFunction _ f =>
                if String.eqb k "toJSON"
                then Some (match f key with
                           | Throw e => Throw e
                           | Normal v' => serialize false key v'
                           end)
                else by_toJSON l'
            | _ => by_toJSON l'
            end
        end in
      match (if use_toJSON then by_toJSON props else None) with
      | Some result => result
      | None =>
          match members props with
          | Throw e => Throw e
          | Normal ss => Normal (Some ("{" ++ join "," ss ++ "}"))
          end
      end
  end.

(** [JSON.stringify(value)]: the value is serialised as the property of a
    wrapper object under the empty key. *)
Definition JSON_stringify (v : value) : completion (option string) :=
  serialize true "" v.

(** An optional string as the JavaScript value it is. *)
Definition of_result (o : option string) : value :=
  match o with Some s => JString s | None => JUndefined end.

(** *** Effects: what the code does to its host, in order *)

Inductive event :=
| Alert (msg : string)
| ConsoleWarn (msg : string)
| WindowOpen (url target : string)
| Expand
| Ready
| SendData (payload : value)
| OpenTelegramLink (url : string).

(** A computation: the host calls made so far, and how it ended. *)
Definition M (A : Type) : Type := list event * completion A.

Definition ret {A} (a : A) : M A := ([], Normal a).

Definition bind {A B} (m : M A) (k : A -> M B) : M B :=
  match m with
  | (tr, Throw e) => (tr, Throw e)
  | (tr, Normal a) => let (tr', r) := k a in ((tr ++ tr')%list, r)
  end.

Definition emit (e : event) : M unit := ([e], Normal tt).
Definition throw {A} (e : exn) : M A := ([], Throw e).
Definition lift {A} (c : completion A) : M A := ([], c).

(** [try { body } catch (e) { handler }] *)
Definition try_catch {A} (body : M A) (handler : exn -> M A) : M A :=
  match body with
  | (tr, Throw e) => let (tr', r) := handler e in ((tr ++ tr')%list, r)
  | done => done
  end.

Notation "x <- m ;; k" := (bind m (fun x => k))
  (at level 61, m at next level, right associativity).
Notation "m ;;; k" := (bind m (fun _ => k))
  (at level 61, right associativity).

Definition trace {A} (m : M A) : list event := fst m.
Definition outcome {A} (m : M A) : completion A := snd m.

(** *** The Telegram web-view bridge, [window.Telegram.WebApp] *)

(** The host provides the object; a method is [None] when the property is
    missing, and otherwise says how a call of it ends. *)
Record WebApp := Bridge
  { expand : option (completion unit);
    ready : option (completion unit);
    sendData : option (value -> completion unit);
    openTelegramLink : option (string -> completion unit) }.

(** A primitive other than undefined and null (Numbers: the safe
    integers). *)
Inductive primitive :=
| PBool (b : bool)
| PNumber (n : safe_integer)
| PBigInt (z : Z)
| PString (s : string)
| PSymbol (description : string).

(** What the property [WebApp] of [window.Telegram] holds: nothing
    (undefined), null, another primitive, or an object with the methods it
    has. *)
Inductive slot :=
| SUndefined
| SNull
| SPrimitive (p : primitive)
| SObject (tg : WebApp).

Record TelegramNS := Namespace { WebApp_slot : slot }.

(** Truthiness of a primitive. *)
Definition truthy_primitive (p : primitive) : bool :=
  match p with
  | PBool b => b
  | PNumber n => negb (Z.eqb (int_value n) 0)
  | PBigInt z => negb (Z.eqb z 0)
  | PString EmptyString => false
  | PString _ => true
  | PSymbol _ => true
  end.

(** What a method lookup finds on a truthy primitive: nothing. *)
Definition methodless : WebApp :=
  {| expand := None; ready := None; sendData := None; openTelegramLink := None |}.

(** The value a slot holds when that value is truthy, as the methods a
    lookup on it finds. *)
Definition as_bridge (s : slot) : option WebApp :=
  match s with
  | SObject tg => Some tg
  | SPrimitive p => if truthy_primitive p then Some methodless else None
  | SUndefined | SNull => None
  end.

Definition WebApp_of (ns : TelegramNS) : option WebApp := as_bridge (WebApp_slot ns).

(** [Telegram] is [None] when [window.Telegram] is missing or otherwise
    falsy.  A truthy [window.Telegram] that has no property [WebApp] is a
    namespace whose slot is undefined. *)
Record Window := { Telegram : option TelegramNS }.

(** [obj.name(args)]: a missing method is a TypeError; a call is recorded
    and ends the way the host says. *)
Definition call (method : option (completion unit)) (name : string) (e : event)
  : M unit :=
  match method with
  | None => throw (TypeError (name ++ " is not a function"))
  | Some r => ([e], r)
  end.

(** [window.Telegram?.WebApp] when it is truthy, which is what both
    [if (!tg)] and [if (tgw)] test. *)
Definition optional_WebApp (w : Window) : option WebApp :=
  match Telegram w with
  | None => None
  | Some ns => WebApp_of ns
  end.

(** [window.open(url, target)] *)
Definition window_open (url target : string) : M unit := emit (WindowOpen url target).

(** [import.meta.env.VITE_BOT_USERNAME]: a string, or undefined. *)
Definition env := option string.

(** JavaScript truthiness of a string-or-undefined. *)
Definition truthy (s : option string) : bool :=
  match s with
  | None => false
  | Some EmptyString => false
  | Some _ => true
  end.

(** A string-or-undefined inside a template literal. *)
Definition interpolate (s : option string) : string :=
  match s with Some x => x | None => "undefined" end.

(** [s || ""] *)
Definition or_empty (s : option string) : string :=
  if truthy s then interpolate s else EmptyString.

(** [!s] for a string. *)
Definition is_empty (s : string) : bool :=
  match s with EmptyString => true | _ => false end.

Definition is_navigation (e : event) : bool :=
  match e with
  | WindowOpen _ _ | OpenTelegramLink _ => true
  | _ => false
  end.

Definition is_sendData (e : event) : bool :=
  match e with SendData _ => true | _ => false end.

Definition navigated_url (e : event) : option string :=
  match e with
  | WindowOpen u _ => Some u
  | OpenTelegramLink u => Some u
  | _ => None
  end.

End JS.

(* ===================================================================== *)
(** ** frontend-miniapp/src/utils/telegram.js *)
(* ===================================================================== *)

Module TelegramUtils.
Import JS.

(** What [initTelegramWebApp] returns: [null], or whatever
    [window.Telegram.WebApp] holds (undefined, null, another primitive, or
    the bridge object). *)
Inductive handle := HNull | HUndefined | HPrimitive (p : primitive) | HObject (tg : WebApp).

Definition handle_of (tg : slot) : handle :=
  match tg with
  | SUndefined => HUndefined
  | SNull => HNull
  | SPrimitive p => HPrimitive p
  | SObject a => HObject a
  end.

(** [tg.expand()], whatever [tg] holds. *)
Definition call_expand (tg : slot) : M unit :=
  match tg with
  | SUndefined =>
      throw (TypeError "Cannot read properties of undefined (reading 'expand')")
  | SNull => throw (TypeError "Cannot read properties of null (reading 'expand')")
  | SPrimitive _ => throw (TypeError "tg.expand is not a function")
  | SObject a => call (expand a) "tg.expand" Expand
  end.

(** Lines 1-6. *)
Definition initTelegramWebApp (w : Window) : M handle :=
  match Telegram w with
  | None => ret HNull
  | Some ns =>
      let tg := WebApp_slot ns in
      try_catch (call_expand tg) (fun _ => ret tt) ;;;
      ret (handle_of tg)
  end.

(** [tg.sendData(arg)] once the argument has its value. *)
Definition call_sendData (tg : WebApp) (arg : value) : M unit :=
  match sendData tg with
  | None => throw (TypeError "tg.sendData is not a function")
  | Some f => ([SendData arg], f arg)
  end.

(** Lines 8-15. *)
Definition sendDataToBot (w : Window) (data : value) : M unit :=
  match optional_WebApp w with
  | None =>
      emit (ConsoleWarn "Telegram WebApp not available.") ;;;
      ret tt
  | Some tg =>
      json <- lift (JSON_stringify data) ;;
      call_sendData tg (of_result json)
  end.

End TelegramUtils.

(* ===================================================================== *)
(** ** frontend-miniapp/src/components/SubscriptionsPlans.jsx *)
(* ===================================================================== *)

Module Plans.
Import JS.

Record plan := Plan
  { code : string; title : string; desc : string; stars : nat }.

(** Lines 3-6. *)
Definition plans : list plan :=
  [ Plan "PRO_MONTH" "Pro — 30 days" "Advanced analytics, campaigns & mass DM." 300
  ; Plan "PRO_QUARTER" "Pro — 90 days" "3 months at a discount." 800 ].

(** Lines 11-18, with [botUsername] read at line 9. *)
Definition openInChat (botUsername : env) (code : string) : M unit :=
  if negb (truthy botUsername) then
    emit (Alert "VITE_BOT_USERNAME is not set. Add it to frontend-miniapp/.env")
  else
    let url := "https://t.me/" ++ interpolate botUsername
               ++ "?start=BUY_PRO_" ++ code in
    window_open url "_blank".

(** One rendered plan card: the three text blocks and the button. *)
Record card := Card
  { card_title : string;
    card_desc : string;
    card_price : string;
    card_button : string;
    card_onClick : M unit }.

Definition number_text (n : nat) : string := NilZero.string_of_uint (Nat.to_uint n).

(** Lines 25-37: [plans.map((p) => ...)]. *)
Definition SubscriptionPlans (botUsername : env) : list card :=
  map (fun p =>
         {| card_title := title p;
            card_desc := desc p;
            card_price := number_text (stars p) ++ "★";
            card_button := "Pay in Telegram (Stars)";
            card_onClick := openInChat botUsername (code p) |})
      plans.

End Plans.

(* ===================================================================== *)
(** ** frontend-miniapp/src/App.jsx *)
(* ===================================================================== *)

Module App.
Import JS.

(** The props of [Card], lines 3-28. *)
Record card_props := CardProps
  { title : string;
    price : string;
    period : string;
    features : list string;
    cta : string;
    onClick : M unit;
    secondary : bool }.

(** The component's state, [const [tg, setTg] = useState(null)]. *)
Definition state := option WebApp.
Definition initial_state : state := None.

(** The effect of lines 33-40, run once after mounting; it gives the
    state it leaves. *)
Definition mount_effect (w : Window) : M state :=
  match optional_WebApp w with
  | Some tgw =>
      call (expand tgw) "tgw.expand" Expand ;;;
      call (ready tgw) "tgw.ready" Ready ;;;
      ret (Some tgw)
  | None => ret initial_state
  end.

(** Lines 42-52. *)
Definition openInChatPay (VITE_BOT_USERNAME : env) (tg : state) : M unit :=
  let botUsername := or_empty VITE_BOT_USERNAME in
  if is_empty botUsername then
    emit (Alert "Bot username missing. Set VITE_BOT_USERNAME in .env.")
  else
    let url := "https://t.me/" ++ botUsername ++ "?start=BUY_PRO" in
    match tg with
    | Some a =>
        match openTelegramLink a with
        | Some f => ([OpenTelegramLink url], f url)
        | None => window_open url "_blank"
        end
    | None => window_open url "_blank"
    end.

(** The host call by which the handler opens a link, given the state. *)
Definition pay_event (tg : state) (url : string) : event :=
  match tg with
  | Some a =>
      match openTelegramLink a with
      | Some _ => OpenTelegramLink url
      | None => WindowOpen url "_blank"
      end
  | None => WindowOpen url "_blank"
  end.

(** Lines 60-87: the two cards. *)
Definition free_card : card_props :=
  {| title := "Free";
     price := "0★";
     period := "forever";
     features := ["Basic join tracking"; "Force-join gate"; "Tenant dashboard"];
     cta := "Current Plan";
     onClick := ret tt;
     secondary := true |}.

Definition pro_card (VITE_BOT_USERNAME : env) (tg : state) : card_props :=
  {| title := "Pro";
     price := "1000★";
     period := "30 days";
     features := [ "Advanced analytics & reports"
                 ; "Mass messaging (rate-limited)"
                 ; "Invite link campaigns"
                 ; "Priority support" ];
     cta := "Pay in Chat";
     onClick := openInChatPay VITE_BOT_USERNAME tg;
     secondary := false |}.

Definition heading : string := "Subscriptions".
Definition notice : list string :=
  ["Pay safely with "; "Telegram Stars"; " inside the chat. No external providers."].

Definition cards (VITE_BOT_USERNAME : env) (tg : state) : list card_props :=
  [free_card; pro_card VITE_BOT_USERNAME tg].

End App.

(* ===================================================================== *)
(** ** Sample data *)
(* ===================================================================== *)

Module Fixtures.
Import Schema Relational.

Definition tenant_row (id : N) (name : string) (owner : Z) : row :=
  [("id", Vuuid id); ("name", Vtext name); ("owner_user_id", Vbigint owner)].

Definition user_row (id tenant : N) (tg : Z) : row :=
  [("id", Vuuid id); ("tenant_id", Vuuid tenant); ("tg_user_id", Vbigint tg);
   ("language", Vtext "en"); ("is_premium", Vboolean false)].

Definition chat_row (id tenant : N) (tg : Z) : row :=
  [("id", Vuuid id); ("tenant_id", Vuuid tenant); ("tg_chat_id", Vbigint tg);
   ("type", Vtext "channel"); ("is_active", Vboolean true)].

Definition link_row (id tenant chat : N) (url : string) : row :=
  [("id", Vuuid id); ("tenant_id", Vuuid tenant); ("chat_id", Vuuid chat);
   ("invite_link", Vtext url)].

Definition join_row (id tenant chat link : N) (tg : Z) : row :=
  [("id", Vuuid id); ("tenant_id", Vuuid tenant); ("chat_id", Vuuid chat);
   ("tg_user_id", Vbigint tg); ("invite_link_id", Vuuid link);
   ("event_type", Vtext "join")].

Definition subscription_row (id tenant : N) (tg : Z) (provider : string) : row :=
  [("id", Vuuid id); ("tenant_id", Vuuid tenant); ("tg_user_id", Vbigint tg);
   ("plan", Vtext "PRO_MONTH"); ("currency", Vtext "XTR");
   ("amount", Vnumeric 300 0); ("provider", Vtext provider)].

Definition payment_row (id tenant : N) (tg : Z) (method : string) : row :=
  [("id", Vuuid id); ("tenant_id", Vuuid tenant); ("tg_user_id", Vbigint tg);
   ("amount", Vnumeric 300 0); ("currency", Vtext "XTR");
   ("method", Vtext method); ("status", Vtext "paid")].

(** INSERTs in order; the first one that is refused stops the load. *)
Fixpoint load (db : database) (stmts : list (string * row)) : option database :=
  match stmts with
  | [] => Some db
  | (tbl, r) :: rest =>
      match insert db tbl r with
      | Some db' => load db' rest
      | None => None
      end
  end.

Definition or_empty_db (o : option database) : database :=
  match o with Some db => db | None => empty_db end.

(** Two tenants, each with a user, a chat, an invite link, a join event,
    a subscription and a payment of its own. *)
Definition two_tenants_rows : list (string * row) :=
  [ ("tenants", tenant_row 1 "acme" 1001)
  ; ("tenants", tenant_row 2 "globex" 1002)
  ; ("users", user_row 11 1 5001)
  ; ("users", user_row 12 2 5002)
  ; ("chats", chat_row 21 1 (-100201))
  ; ("chats", chat_row 22 2 (-100202))
  ; ("invite_links", link_row 31 1 21 "https://t.me/+acme")
  ; ("invite_links", link_row 32 2 22 "https://t.me/+globex")
  ; ("join_events", join_row 41 1 21 31 5001)
  ; ("join_events", join_row 42 2 22 32 5002)
  ; ("subscriptions", subscription_row 51 1 5001 "stars")
  ; ("subscriptions", subscription_row 52 2 5002 "stars")
  ; ("payments", payment_row 61 1 5001 "stars")
  ; ("payments", payment_row 62 2 5002 "stars") ].

Definition two_tenants : database := or_empty_db (load empty_db two_tenants_rows).

(** The same, and a join event of tenant 2 that names tenant 1's invite
    link, which the schema accepts. *)
Definition crossed_rows : list (string * row) :=
  (two_tenants_rows ++ [("join_events", join_row 43 2 22 31 5003)])%list.

Definition crossed : database := or_empty_db (load empty_db crossed_rows).

(** A user that belongs to no tenant, added to the two tenants. *)
Definition tenantless_user : row := [("id", Vuuid 13); ("tg_user_id", Vbigint 5003)].

Definition with_tenantless_user_rows : list (string * row) :=
  (two_tenants_rows ++ [("users", tenantless_user)])%list.

(** The ids stored in a table. *)
Definition ids (db : database) (tbl : string) : list value :=
  map (fun r => field r "id") (db tbl).

End Fixtures.

Module Hosts.
Import JS.

(** A bridge whose four methods are there and return. *)
Definition full_bridge : WebApp :=
  {| expand := Some (Normal tt);
     ready := Some (Normal tt);
     sendData := Some (fun _ => Normal tt);
     openTelegramLink := Some (fun _ => Normal tt) |}.

(** A bridge whose [expand] throws, and one whose [sendData] refuses the
    payload. *)
Definition failing_expand : WebApp :=
  {| expand := Some (Throw (HostError "WebAppMethodUnsupported"));
     ready := Some (Normal tt);
     sendData := Some (fun _ => Normal tt);
     openTelegramLink := Some (fun _ => Normal tt) |}.

Definition refusing_sendData : WebApp :=
  {| expand := Some (Normal tt);
     ready := Some (Normal tt);
     sendData := Some (fun _ => Throw (HostError "WebAppDataInvalid"));
     openTelegramLink := Some (fun _ => Normal tt) |}.

(** A bridge of an old client, without [openTelegramLink]. *)
Definition old_bridge : WebApp :=
  {| expand := Some (Normal tt);
     ready := Some (Normal tt);
     sendData := Some (fun _ => Normal tt);
     openTelegramLink := None |}.

(** Inside Telegram, and in a plain browser. *)
Definition inside_telegram (tg : WebApp) : Window :=
  {| Telegram := Some (Namespace (SObject tg)) |}.
Definition plain_browser : Window := {| Telegram := None |}.

Definition order : value :=
  JObject [("plan", JString "PRO_MONTH"); ("stars", JInt (SafeInteger 300 eq_refl));
           ("gift", JBool false)].

(** [window.Telegram] with a [WebApp] that is null. *)
Definition null_bridge : Window := {| Telegram := Some (Namespace SNull) |}.

(** A value with a [toJSON] method that answers with its key and a
    symbol, in an array. *)
Definition labelled : value :=
  JObject [("plan", JString "PRO_MONTH");
           ("toJSON", JFunction "toJSON"
                        (fun key => Normal (JArray [JString "k"; JSymbol "s"])))].

Definition order_json : string :=
  "{" ++ dquote ++ "plan" ++ dquote ++ ":" ++ dquote ++ "PRO_MONTH" ++ dquote
  ++ "," ++ dquote ++ "stars" ++ dquote ++ ":300"
  ++ "," ++ dquote ++ "gift" ++ dquote ++ ":false}".

End Hosts.

(* ===================================================================== *)
(** ** Acting on what check_files.sh prints *)
(* ===================================================================== *)

Module Repair.
Import CheckFiles.

(** The filesystem after each of [paths] has been created as a regular
    file. *)
Definition touch (paths : list string) (fs : filesystem) : filesystem :=
  fun f => if existsb (String.eqb f) paths then Some Regular else fs f.

(** A line of the missing-files list without its " - " in front. *)
Definition strip (line : string) : string :=
  substring 3 (String.length line - 3) line.

(** The paths a run names: the lines below the first one. *)
Definition reported (r : run) : list string :=
  match stdout r with
  | [] => []
  | _ :: lines => map strip lines
  end.

End Repair.

(* ===================================================================== *)
(** ** Database states the schema keeps *)
(* ===================================================================== *)

Module Invariants.
Import Schema Relational.

(** No two rows of [rows] collide on the key [cols]. *)
Fixpoint keys_distinct (cols : list string) (rows : list row) : bool :=
  match rows with
  | [] => true
  | r :: rest => negb (existsb (same_on cols r) rest) && keys_distinct cols rest
  end.

(** Every primary key and UNIQUE constraint of the schema holds. *)
Definition keys_ok (db : database) : bool :=
  forallb (fun t => forallb (fun cols => keys_distinct cols (db (tbl_name t)))
                            (key_columns t))
          schema.

(** The cascading keys that point into table [tbl']. *)
Definition fires_into (root tbl' : string) (fk : fkey) : bool :=
  String.eqb (fk_ref_table fk) root && is_cascade (fk_action fk)
  && String.eqb (fk_table fk) tbl'.

(** What a deletion from [root] leaves of the rows of a table that only
    [root] cascades into: the rows that point at none of the rows
    [gone]. *)
Definition sieve (root tbl' : string) (gone : list row) (fks : list fkey)
           (rows : list row) : list row :=
  fold_left (fun rows fk =>
               if fires_into root tbl' fk
               then filter (fun r => negb (refers fk gone r)) rows
               else rows)
            fks rows.

(** [tbl'] is a child of [root] alone, and [root] a child of no table. *)
Definition only_child_of (root tbl' : string) (fks : list fkey) : bool :=
  forallb (fun fk => negb (String.eqb (fk_table fk) root)
                     && (negb (String.eqb (fk_table fk) tbl' && is_cascade (fk_action fk))
                         || String.eqb (fk_ref_table fk) root))
          fks.

(** The one key of the schema without ON DELETE CASCADE:
    [join_events.invite_link_id uuid REFERENCES invite_links(id)]. *)
Definition link_key : fkey :=
  FK "join_events" "invite_link_id" "invite_links" "id" NoAction.

(** How many cascades can follow a deletion from the table: tenants
    cascade into chats, and chats into invite links and join events. *)
Definition cascade_depth (tbl : string) : nat :=
  if String.eqb tbl "tenants" then 2 else if String.eqb tbl "chats" then 1 else 0.

(** The column accepts NULL: it is neither NOT NULL nor a primary key. *)
Definition nullable (c : column) : bool :=
  negb (existsb (fun k => is_not_null k || is_primary_key k) (col_constraints c)).

Definition tenant_id_nullable (t : table) : bool :=
  match find_column t "tenant_id" with
  | Some c => nullable c
  | None => false
  end.

(** [a] is NULL or equal to [b]. *)
Definition agree (a b : value) : bool := is_null a || value_eqb a b.

(** Every join event that names an invite link carries the tenant_id and
    the chat_id of that link, where the link has them. *)
Definition links_consistent (db : database) : bool :=
  forallb (fun j =>
             forallb (fun l =>
                        negb (value_eqb (field l "id") (field j "invite_link_id"))
                        || (agree (field l "tenant_id") (field j "tenant_id")
                            && agree (field l "chat_id") (field j "chat_id")))
                     (db "invite_links"))
          (db "join_events").

End Invariants.

(* ===================================================================== *)
(** ** What App.jsx puts on the page *)
(* ===================================================================== *)

Module Views.
Import JS.

(** The button of a card, with the two style entries that depend on the
    props. *)
Record button := Button
  { label : string;
    background : string;
    color : string;
    handler : M unit }.

(** A rendered [Card]: the heading, the price and period lines, the list
    items with their keys, and the button. *)
Record card_view := CardView
  { heading : string;
    price_line : string;
    period_line : string;
    items : list (nat * string);
    action : button }.

(** [features.map((f, i) => <li key={i}>{f}</li>)] *)
Fixpoint map_indexed (i : nat) (l : list string) : list (nat * string) :=
  match l with
  | [] => []
  | f :: l' => (i, f) :: map_indexed (S i) l'
  end.

(** Lines 3-28 of App.jsx. *)
Definition Card (p : App.card_props) : card_view :=
  {| heading := App.title p;
     price_line := App.price p;
     period_line := App.period p;
     items := map_indexed 0 (App.features p);
     action :=
       {| label := App.cta p;
          background := if App.secondary p then "#eee" else "#0ea5e9";
          color := if App.secondary p then "#111" else "white";
          handler := App.onClick p |} |}.

(** The component is mounted, its effect runs, and the Pro button is
    clicked: the handler sees the state the effect left. *)
Definition mount_then_pay (w : Window) (VITE_BOT_USERNAME : env) : M unit :=
  tg <- App.mount_effect w ;;
  App.openInChatPay VITE_BOT_USERNAME tg.

Definition is_bridge_setup (e : event) : bool :=
  match e with Expand | Ready => true | _ => false end.

End Views.

Module SharedChat.
Import Schema Relational Fixtures.

(** The two tenants, and an invite link and a join event that belong to
    tenant 2 but are attached to the chat of tenant 1. *)
Definition rows : list (string * row) :=
  (two_tenants_rows
   ++ [ ("invite_links", link_row 33 2 21 "https://t.me/+shared")
      ; ("join_events", join_row 44 2 21 33 5004) ])%list.

Definition db : database := or_empty_db (load empty_db rows).

(** The key from a table to its chat. *)
Definition chat_key (tbl : string) : fkey := FK tbl "chat_id" "chats" "id" Cascade.

End SharedChat.

(* ===================================================================== *)
(** * Properties *)
(* ===================================================================== *)

(** ** check_files.sh *)

Section CheckFilesFacts.
Import CheckFiles.

Variable fs : filesystem.

(** The loop appends, so it is a filter that keeps the list order. *)
Lemma collect_missing_acc (req acc : list string) :
  fold_left (loop_body fs) req acc
  = (acc ++ filter (fun f => negb (test_f fs f)) req)%list.
Proof.
  revert acc; induction req as [|f req IH]; intro acc; simpl.
  - now rewrite app_nil_r.
  - rewrite IH. unfold loop_body.
    destruct (negb (test_f fs f)); simpl; [now rewrite <- app_assoc | reflexivity].
Qed.

Lemma collect_missing_absent : collect_missing fs required = absent fs.
Proof. unfold collect_missing, absent. now rewrite collect_missing_acc. Qed.

Lemma test_f_regular (f : string) : test_f fs f = true <-> fs f = Some Regular.
Proof.
  unfold test_f. destruct (fs f) as [[| |]|]; split; intro H;
    try reflexivity; try discriminate H.
Qed.

Lemma absent_nil_iff :
  absent fs = [] <-> forall f, In f required -> fs f = Some Regular.
Proof.
  unfold absent. split.
  - intros H f Hf. apply test_f_regular.
    destruct (test_f fs f) eqn:E; [reflexivity|].
    assert (Hin : In f (filter (fun f => negb (test_f fs f)) required))
      by (apply filter_In; split; [exact Hf | now rewrite E]).
    rewrite H in Hin. destruct Hin.
  - intro H. induction required as [|g l IH]; simpl; [reflexivity|].
    assert (Hg : test_f fs g = true) by (apply test_f_regular, H; now left).
    rewrite Hg. simpl. apply IH. intros f Hf. apply H. now right.
Qed.

Lemma check_files_cases :
  (absent fs = []
   /\ check_files fs = {| stdout := [msg_present]; exit_status := 0 |})
  \/ (absent fs <> []
      /\ check_files fs
         = {| stdout := msg_missing :: map (fun m => " - " ++ m) (absent fs);
              exit_status := 2 |}).
Proof.
  unfold check_files. rewrite collect_missing_absent.
  destruct (absent fs) as [|m ms]; [left | right]; split;
    try reflexivity; discriminate.
Qed.

End CheckFilesFacts.

(** C1.  Whatever the filesystem holds, the script exits with status 0,
    having printed the success line, exactly when each of the 16 required
    paths is a regular file; in every other case it exits with status 2,
    having printed the heading and then one line per required path that is
    not a regular file, these and no others, in the order of the list.  The
    list is the constant [required]: it takes no argument. *)
Theorem check_files_exit_status (fs : CheckFiles.filesystem) :
  List.length CheckFiles.required = 16
  /\ (CheckFiles.exit_status (CheckFiles.check_files fs) = 0
      <-> forall f, In f CheckFiles.required -> fs f = Some CheckFiles.Regular)
  /\ (CheckFiles.exit_status (CheckFiles.check_files fs) = 0
      -> CheckFiles.stdout (CheckFiles.check_files fs) = [CheckFiles.msg_present])
  /\ (CheckFiles.exit_status (CheckFiles.check_files fs) <> 0
      -> CheckFiles.exit_status (CheckFiles.check_files fs) = 2
         /\ CheckFiles.stdout (CheckFiles.check_files fs)
            = CheckFiles.msg_missing
              :: map (fun m => " - " ++ m)
                   (filter (fun f => negb (CheckFiles.test_f fs f)) CheckFiles.required)).
Proof.
  split; [reflexivity|].
  change (filter (fun f => negb (CheckFiles.test_f fs f)) CheckFiles.required)
    with (CheckFiles.absent fs).
  destruct (check_files_cases fs) as [[Hnil Hrun] | [Hsome Hrun]]; rewrite Hrun;
    cbn [CheckFiles.stdout CheckFiles.exit_status].
  - split; [|split].
    + split; [intros _; now apply absent_nil_iff | reflexivity].
    + reflexivity.
    + intro H; now elim H.
  - split; [|split].
    + split; [discriminate|]. intro H. apply absent_nil_iff in H. contradiction.
    + discriminate.
    + intros _. split; reflexivity.
Qed.

(** ** db/schema.sql: the cascade *)

Section CascadeFacts.
Import Schema Relational.

Variable fks : list fkey.

Lemma set_table_same (db : database) (tbl : string) (rows : list row) :
  set_table db tbl rows tbl = rows.
Proof. unfold set_table. now rewrite String.eqb_refl. Qed.

Lemma set_table_sub (db : database) (tbl : string) (p : row -> bool) (tbl' : string) (r : row) :
  In r (set_table db tbl (filter p (db tbl)) tbl') -> In r (db tbl').
Proof.
  unfold set_table. destruct (String.eqb_spec tbl' tbl) as [->|_]; [|tauto].
  intro H. now apply filter_In in H.
Qed.

(** A fold of steps that each only remove rows only removes rows. *)
Lemma fold_only_removes (step : database -> fkey -> database) (tbl' : string) (r : row) :
  (forall d fk, In r (step d fk tbl') -> In r (d tbl')) ->
  forall l d, In r (fold_left step l d tbl') -> In r (d tbl').
Proof.
  intros Hstep l; induction l as [|fk l IH]; intros d H; simpl in H; [exact H|].
  apply Hstep with fk, IH, H.
Qed.

(** If one of the steps rules a row out, the fold does. *)
Lemma fold_step_decides (step : database -> fkey -> database) (tbl' : string)
      (r : row) (fk : fkey) (Q : Prop) :
  (forall d k, In r (step d k tbl') -> In r (d tbl')) ->
  (forall d, In r (step d fk tbl') -> Q) ->
  forall l d, In fk l -> In r (fold_left step l d tbl') -> Q.
Proof.
  intros Hstep Hfk l; induction l as [|k l IH]; intros d Hin H; [destruct Hin|].
  simpl in H. destruct Hin as [->|Hin].
  - apply (fold_only_removes step _ _ Hstep) in H. now apply Hfk in H.
  - now apply IH in H.
Qed.

Lemma delete_where_step (fuel : nat) (db : database) (tbl : string)
      (doomed : row -> bool) :
  delete_where (S fuel) fks db tbl doomed
  = fold_left
      (fun d fk =>
         if String.eqb (fk_ref_table fk) tbl && is_cascade (fk_action fk)
         then delete_where fuel fks d (fk_table fk)
                (refers fk (filter doomed (db tbl)))
         else d)
      fks
      (set_table db tbl (filter (fun r => negb (doomed r)) (db tbl))).
Proof. reflexivity. Qed.

(** A DELETE never adds a row to any table. *)
Lemma delete_where_only_removes (fuel : nat) :
  forall db tbl doomed tbl' r,
    In r (delete_where fuel fks db tbl doomed tbl') -> In r (db tbl').
Proof.
  induction fuel as [|fuel IH]; intros db tbl doomed tbl' r H; simpl in H; [exact H|].
  apply fold_only_removes in H.
  - eapply set_table_sub, H.
  - intros d fk Hd.
    destruct (String.eqb (fk_ref_table fk) tbl && is_cascade (fk_action fk));
      [eapply IH, Hd | exact Hd].
Qed.

(** The rows the WHERE clause selects are gone from the table itself. *)
Lemma delete_where_removes_doomed (fuel : nat) (db : database) (tbl : string)
      (doomed : row -> bool) (r : row) :
  In r (delete_where (S fuel) fks db tbl doomed tbl) -> doomed r = false.
Proof.
  simpl. intro H. apply fold_only_removes in H.
  - rewrite set_table_same in H. apply filter_In in H.
    destruct H as [_ H]. now destruct (doomed r).
  - intros d fk Hd.
    destruct (String.eqb (fk_ref_table fk) tbl && is_cascade (fk_action fk));
      [eapply delete_where_only_removes, Hd | exact Hd].
Qed.

(** And so are, one level down, the rows that pointed at them through a
    cascading key. *)
Lemma delete_where_cascades (fuel : nat) (db : database) (tbl : string)
      (doomed : row -> bool) (fk : fkey) (r : row) :
  In fk fks ->
  fk_ref_table fk = tbl ->
  fk_action fk = Cascade ->
  In r (delete_where (S (S fuel)) fks db tbl doomed (fk_table fk)) ->
  refers fk (filter doomed (db tbl)) r = false.
Proof.
  intros Hin Href Hact H.
  rewrite delete_where_step in H.
  eapply fold_step_decides in H; [exact H | | | exact Hin].
  - intros d k Hd.
    destruct (String.eqb (fk_ref_table k) tbl && is_cascade (fk_action k));
      [eapply delete_where_only_removes, Hd | exact Hd].
  - intros d Hd. cbv beta in Hd.
    rewrite Href, String.eqb_refl, Hact in Hd. simpl andb in Hd. cbv iota in Hd.
    eapply delete_where_removes_doomed, Hd.
Qed.

Lemma value_eqb_uuid (v : value) (t : N) : value_eqb v (Vuuid t) = true -> v = Vuuid t.
Proof.
  destruct v; simpl; try discriminate. intro H. apply N.eqb_eq in H. now subst.
Qed.

(** A row that points at no deleted tenant is not owned by the tenant that
    was deleted. *)
Lemma not_referring_not_owned (t : N) (gone : list row) (tenant r : row) (tbl : string) :
  In tenant gone -> has_id t tenant = true ->
  refers (tenant_key tbl) gone r = false -> owned_by t r = false.
Proof.
  intros Hin Hid Href. destruct (owned_by t r) eqn:Hown; [|reflexivity].
  unfold owned_by in Hown. apply value_eqb_uuid in Hown.
  unfold refers in Href. simpl in Href. rewrite Hown in Href. simpl in Href.
  assert (Hex : existsb (fun p => value_eqb (field p "id") (Vuuid t)) gone = true)
    by (apply existsb_exists; exists tenant; split; assumption).
  rewrite Hex in Href. discriminate Href.
Qed.

Lemma cascade_removes_tenant (fuel : nat) (db : database) (t : N) (r : row) :
  In r (cascade_tenant_with fks (S fuel) db t "tenants") -> has_id t r = false.
Proof. unfold cascade_tenant_with. apply delete_where_removes_doomed. Qed.

Lemma cascade_removes_owned (fuel : nat) (db : database) (t : N)
      (tenant : row) (tbl : string) (r : row) :
  In (tenant_key tbl) fks ->
  In tenant (db "tenants") -> has_id t tenant = true ->
  In r (cascade_tenant_with fks (S (S fuel)) db t tbl) ->
  owned_by t r = false.
Proof.
  intros Hkey Hrow Hid Hr.
  apply not_referring_not_owned
    with (gone := filter (has_id t) (db "tenants")) (tenant := tenant) (tbl := tbl).
  - apply filter_In. split; assumption.
  - exact Hid.
  - unfold cascade_tenant_with in Hr.
    apply (delete_where_cascades fuel db "tenants" (has_id t) (tenant_key tbl) r);
      [exact Hkey | reflexivity | reflexivity | exact Hr].
Qed.

Lemma cascade_only_removes (fuel : nat) (db : database) (t : N) (tbl : string) (r : row) :
  In r (cascade_tenant_with fks fuel db t tbl) -> In r (db tbl).
Proof. unfold cascade_tenant_with. apply delete_where_only_removes. Qed.

Lemma delete_is_cascade (fuel : nat) (db : database) (t : N) (db' : database) :
  delete_tenant_with fks fuel db t = Some db' -> db' = cascade_tenant_with fks fuel db t.
Proof.
  unfold delete_tenant_with. cbv zeta.
  destruct (referential_integrity fks (cascade_tenant_with fks fuel db t));
    intro H; [now inversion H | discriminate H].
Qed.

End CascadeFacts.

Section TenantFacts.
Import Schema Relational.

Lemma cascade_tenant_eq :
  cascade_tenant = cascade_tenant_with (foreign_keys schema) 8.
Proof. reflexivity. Qed.

Lemma delete_tenant_eq :
  delete_tenant = delete_tenant_with (foreign_keys schema) 8.
Proof. reflexivity. Qed.

Lemma tenant_key_declared (tbl : string) :
  In tbl table_names -> tbl <> "tenants" -> In (tenant_key tbl) (foreign_keys schema).
Proof.
  intros Hin Hne. unfold table_names in Hin. simpl in Hin.
  repeat (destruct Hin as [<-|Hin]; [try (now elim Hne); vm_compute; tauto|]).
  destruct Hin.
Qed.

Lemma value_eqb_eq (a b : value) : value_eqb a b = true -> a = b.
Proof.
  destruct a, b; simpl; try discriminate; intro H; try reflexivity.
  - apply N.eqb_eq in H. now subst.
  - apply String.eqb_eq in H. now subst.
  - apply Z.eqb_eq in H. now subst.
  - apply Z.eqb_eq in H. now subst.
  - apply Bool.eqb_prop in H. now subst.
  - apply andb_prop in H. destruct H as [Hz Hn].
    apply Z.eqb_eq in Hz. apply Nat.eqb_eq in Hn. now subst.
  - apply String.eqb_eq in H. now subst.
Qed.

(** An INSERT into a table of a tenant goes through only if the row names
    no tenant or an existing one. *)
Lemma insert_checks_tenant (db db1 : database) (tbl : string) (r : row) :
  In tbl table_names -> tbl <> "tenants" ->
  insert db tbl r = Some db1 ->
  field r "tenant_id" = Vnull
  \/ exists tn, In tn (db "tenants") /\ field tn "id" = field r "tenant_id".
Proof.
  intros Hin Hne H. unfold insert in H.
  destruct (find_table schema tbl) as [t|] eqn:Hfind; [|discriminate H].
  apply find_some in Hfind. destruct Hfind as [_ Hname].
  apply String.eqb_eq in Hname.
  destruct (row_admitted t r && keys_free t (db tbl) r && references_resolve db t r)
    eqn:Hok; [|discriminate H].
  apply andb_prop in Hok. destruct Hok as [_ Hres].
  unfold references_resolve in Hres.
  pose proof (proj1 (forallb_forall _ _) Hres (tenant_key tbl)
                    (tenant_key_declared tbl Hin Hne)) as Hkey.
  cbn [tenant_key fk_table fk_col fk_ref_table] in Hkey.
  rewrite Hname, String.eqb_refl in Hkey. cbn [negb orb] in Hkey.
  destruct (field r "tenant_id") as [| u | | | | | |] eqn:Hv; [now left|..];
    right; cbn [is_null orb] in Hkey; unfold refers in Hkey;
    cbn [tenant_key fk_col fk_ref_col] in Hkey; rewrite Hv in Hkey;
    cbn [is_null negb andb] in Hkey;
    apply existsb_exists in Hkey; destruct Hkey as [tn [Htn Heq]];
    exists tn; (split; [exact Htn | now apply value_eqb_eq]).
Qed.

Lemma every_table_references_tenant (tb : table) :
  In tb schema -> tbl_name tb <> "tenants" -> references_tenant tb = true.
Proof.
  intros Hin Hne. simpl in Hin.
  repeat (destruct Hin as [<-|Hin]; [try (now elim Hne); reflexivity|]).
  destruct Hin.
Qed.

End TenantFacts.

Section KeyFacts.
Import Schema Relational Invariants.

Variable fks : list fkey.

Lemma fold_pointwise (step : database -> fkey -> database) (tbl' : string)
      (l : list fkey) :
  (forall d fk, In fk l -> step d fk tbl' = d tbl') ->
  forall d, fold_left step l d tbl' = d tbl'.
Proof.
  induction l as [|fk l IH]; intros Hstep d; [reflexivity|].
  cbn [fold_left]. rewrite IH.
  - apply Hstep. now left.
  - intros d' fk' Hin. apply Hstep. now right.
Qed.

Lemma set_table_other (db : database) (tbl tbl' : string) (rows : list row) :
  tbl' <> tbl -> set_table db tbl rows tbl' = db tbl'.
Proof.
  intro H. unfold set_table. destruct (String.eqb_spec tbl' tbl); [contradiction | reflexivity].
Qed.

Lemma value_eqb_refl (v : value) : value_eqb v v = true.
Proof.
  destruct v; simpl; try reflexivity.
  - apply N.eqb_refl.
  - apply String.eqb_refl.
  - apply Z.eqb_refl.
  - apply Z.eqb_refl.
  - apply Bool.eqb_reflx.
  - now rewrite Z.eqb_refl, Nat.eqb_refl.
  - apply String.eqb_refl.
Qed.

Lemma delete_with_integrity (fuel : nat) (db db' : database) (t : N) :
  delete_tenant_with fks fuel db t = Some db' ->
  referential_integrity fks db' = true.
Proof.
  unfold delete_tenant_with. cbv zeta.
  destruct (referential_integrity fks (cascade_tenant_with fks fuel db t)) eqn:E;
    intro H; [inversion H; now subst | discriminate H].
Qed.

(** Under referential integrity a non-NULL reference has its target. *)
Lemma reference_resolves (db : database) (child ccol parent pcol : string)
      (a : ref_action) (l : row) :
  referential_integrity fks db = true ->
  In (FK child ccol parent pcol a) fks ->
  In l (db child) ->
  is_null (field l ccol) = false ->
  exists p, In p (db parent) /\ field p pcol = field l ccol.
Proof.
  intros Hint Hfk Hl Hnn. unfold referential_integrity in Hint.
  pose proof (proj1 (forallb_forall _ _) Hint _ Hfk) as Hone.
  unfold fkey_holds, refers in Hone.
  cbn [fk_table fk_ref_table fk_col fk_ref_col] in Hone.
  pose proof (proj1 (forallb_forall _ _) Hone l Hl) as Hrow. cbv beta in Hrow.
  rewrite Hnn in Hrow. cbn [negb orb andb] in Hrow.
  apply existsb_exists in Hrow. destruct Hrow as [p [Hp Heq]].
  exists p. split; [exact Hp | now apply value_eqb_eq].
Qed.

Lemma keys_distinct_unique (cols : list string) (rows : list row) (p q : row) :
  keys_distinct cols rows = true ->
  In p rows -> In q rows -> same_on cols p q = true -> p = q.
Proof.
  induction rows as [|x rest IH]; intros Hd Hp Hq Hsame; [destruct Hp|].
  cbn [keys_distinct] in Hd. apply andb_prop in Hd. destruct Hd as [Hx Hrest].
  apply negb_true_iff in Hx.
  assert (Hclash : forall y, In y rest -> same_on cols x y = true -> False).
  { intros y Hy Hxy.
    assert (E : existsb (same_on cols x) rest = true)
      by (apply existsb_exists; exists y; split; assumption).
    rewrite E in Hx. discriminate Hx. }
  destruct Hp as [<-|Hp], Hq as [<-|Hq].
  - reflexivity.
  - exfalso. exact (Hclash q Hq Hsame).
  - exfalso. apply (Hclash p Hp).
    unfold same_on in *. apply forallb_forall. intros c Hc.
    pose proof (proj1 (forallb_forall _ _) Hsame c Hc) as Hone.
    apply andb_prop in Hone. destruct Hone as [Hnn Heq].
    apply value_eqb_eq in Heq. rewrite <- Heq, Hnn.
    destruct (field p c); cbn [value_eqb]; try reflexivity;
      try apply N.eqb_refl; try apply String.eqb_refl; try apply Z.eqb_refl;
      try apply Bool.eqb_reflx.
    now rewrite Z.eqb_refl, Nat.eqb_refl.
  - now apply IH.
Qed.

End KeyFacts.

Section FixtureChecks.
Import Schema Relational Fixtures.

Example two_tenants_loads :
  match load empty_db two_tenants_rows with Some _ => true | None => false end = true.
Proof. vm_compute. reflexivity. Qed.

Example crossed_loads :
  match load empty_db crossed_rows with Some _ => true | None => false end = true.
Proof. vm_compute. reflexivity. Qed.

(** Deleting tenant 1 leaves tenant 2's row in every table, and nothing
    else. *)
Example delete_first_tenant :
  match delete_tenant two_tenants 1 with
  | Some db => map (ids db) table_names
  | None => []
  end
  = [ [Vuuid 2]; [Vuuid 12]; [Vuuid 22]; [Vuuid 32]; [Vuuid 42]; [Vuuid 52]; [Vuuid 62] ].
Proof. vm_compute. reflexivity. Qed.

(** With the crossed reference the NO ACTION key of
    [join_events.invite_link_id] refuses the deletion. *)
Example delete_refused_when_crossed :
  match delete_tenant crossed 1 with Some _ => true | None => false end = false.
Proof. vm_compute. reflexivity. Qed.

End FixtureChecks.

(** ** db/schema.sql: when a deletion goes through *)

Section DeletionFacts.
Import Schema Relational Invariants.

Variable fks : list fkey.

Lemma refers_spec (k : fkey) (parents : list row) (r : row) :
  refers k parents r = true
  <-> is_null (field r (fk_col k)) = false
      /\ exists p, In p parents
                   /\ value_eqb (field p (fk_ref_col k)) (field r (fk_col k)) = true.
Proof.
  unfold refers. rewrite andb_true_iff, negb_true_iff, existsb_exists. reflexivity.
Qed.

Lemma fkey_holds_spec (d : database) (k : fkey) :
  fkey_holds d k = true
  <-> forall r, In r (d (fk_table k)) -> is_null (field r (fk_col k)) = false ->
                refers k (d (fk_ref_table k)) r = true.
Proof.
  unfold fkey_holds. rewrite forallb_forall. split; intros H r Hr.
  - intro Hnn. specialize (H r Hr). rewrite Hnn in H. exact H.
  - destruct (is_null (field r (fk_col k))) eqn:E; [reflexivity|]. now apply H.
Qed.

Lemma fires_spec (fk : fkey) (tbl : string) :
  String.eqb (fk_ref_table fk) tbl && is_cascade (fk_action fk) = true
  <-> fk_ref_table fk = tbl /\ fk_action fk = Cascade.
Proof.
  rewrite andb_true_iff, String.eqb_eq.
  destruct (fk_action fk); cbn [is_cascade]; intuition congruence.
Qed.

Lemma fold_invariant (P : database -> Prop) (step : database -> fkey -> database)
      (l : list fkey) :
  (forall d fk, In fk l -> P d -> P (step d fk)) ->
  forall d, P d -> P (fold_left step l d).
Proof.
  induction l as [|fk l IH]; intros Hstep d Hd; [exact Hd|].
  cbn [fold_left]. apply IH.
  - intros d' fk' Hin. apply Hstep. now right.
  - apply Hstep; [now left | exact Hd].
Qed.

(** If the rows a row points at through cascading keys all stay, and the
    WHERE clause does not select it, the row stays. *)
Lemma fold_survives (fuel : nat) (d0 : database) (T : string) (doomed : row -> bool)
      (C : string) (r : row)
      (IH : forall d T doomed,
          In r (d C) ->
          (C = T -> doomed r = false) ->
          (forall k p, In k fks -> fk_action k = Cascade -> fk_table k = C ->
                       In p (d (fk_ref_table k)) ->
                       is_null (field r (fk_col k)) = false ->
                       value_eqb (field p (fk_ref_col k)) (field r (fk_col k)) = true ->
                       In p (delete_where fuel fks d T doomed (fk_ref_table k))) ->
          In r (delete_where fuel fks d T doomed C))
      (l : list fkey) :
  (forall fk, In fk l -> In fk fks) ->
  forall d',
    (forall tbl x, In x (d' tbl) -> In x (d0 tbl)) ->
    (forall p, In p (d' T) -> doomed p = false) ->
    In r (d' C) ->
    (forall k p, In k fks -> fk_action k = Cascade -> fk_table k = C ->
                 In p (d0 (fk_ref_table k)) ->
                 is_null (field r (fk_col k)) = false ->
                 value_eqb (field p (fk_ref_col k)) (field r (fk_col k)) = true ->
                 In p (fold_left
                         (fun d fk =>
                            if String.eqb (fk_ref_table fk) T && is_cascade (fk_action fk)
                            then delete_where fuel fks d (fk_table fk)
                                   (refers fk (filter doomed (d0 T)))
                            else d)
                         l d' (fk_ref_table k))) ->
    In r (fold_left
            (fun d fk =>
               if String.eqb (fk_ref_table fk) T && is_cascade (fk_action fk)
               then delete_where fuel fks d (fk_table fk)
                      (refers fk (filter doomed (d0 T)))
               else d)
            l d' C).
Proof.
  set (step := fun (d : database) (fk : fkey) =>
                 if String.eqb (fk_ref_table fk) T && is_cascade (fk_action fk)
                 then delete_where fuel fks d (fk_table fk)
                        (refers fk (filter doomed (d0 T)))
                 else d).
  assert (Hstep : forall tbl x d fk, In x (step d fk tbl) -> In x (d tbl)).
  { intros tbl x d fk Hx. unfold step in Hx.
    destruct (String.eqb (fk_ref_table fk) T && is_cascade (fk_action fk));
      [eapply delete_where_only_removes, Hx | exact Hx]. }
  induction l as [|fk l IHl]; intros Hl d' Hsub Hkept Hr Hpar; [exact Hr|].
  cbn [fold_left] in Hpar |- *.
  assert (Hrest : forall tbl x, In x (fold_left step l (step d' fk) tbl) ->
                                In x (step d' fk tbl)).
  { intros tbl x. apply fold_only_removes. intros d fk'. apply Hstep. }
  apply IHl.
  - intros fk' Hin. apply Hl. now right.
  - intros tbl x Hx. apply Hsub. exact (Hstep _ _ _ _ Hx).
  - intros p Hp. apply Hkept. exact (Hstep _ _ _ _ Hp).
  - unfold step at 1.
    destruct (String.eqb (fk_ref_table fk) T && is_cascade (fk_action fk)) eqn:E;
      [|exact Hr].
    apply fires_spec in E. destruct E as [Href Hact].
    apply IH.
    + exact Hr.
    + intro HC. destruct (refers fk (filter doomed (d0 T)) r) eqn:Hgone; [|reflexivity].
      exfalso. apply refers_spec in Hgone. destruct Hgone as [Hnn [p [Hp Heq]]].
      apply filter_In in Hp. destruct Hp as [Hp Hdoom].
      assert (Hfinal : In p (fold_left step l (step d' fk) (fk_ref_table fk))).
      { apply Hpar; try assumption; [apply Hl; now left | now symmetry | now rewrite Href]. }
      rewrite Href in Hfinal. apply Hrest, Hstep, Hkept in Hfinal.
      rewrite Hfinal in Hdoom. discriminate Hdoom.
    + intros k p Hk Hka Hkt Hp Hnn Heq.
      assert (Hfinal : In p (fold_left step l (step d' fk) (fk_ref_table k))).
      { apply Hpar; try assumption. apply Hsub. exact Hp. }
      apply Hrest in Hfinal. unfold step in Hfinal.
      assert (E : String.eqb (fk_ref_table fk) T && is_cascade (fk_action fk) = true)
        by (apply fires_spec; split; assumption).
      rewrite E in Hfinal. exact Hfinal.
  - exact Hpar.
Qed.

Lemma survives (fuel : nat) (C : string) (r : row) :
  forall d T doomed,
    In r (d C) ->
    (C = T -> doomed r = false) ->
    (forall k p, In k fks -> fk_action k = Cascade -> fk_table k = C ->
                 In p (d (fk_ref_table k)) ->
                 is_null (field r (fk_col k)) = false ->
                 value_eqb (field p (fk_ref_col k)) (field r (fk_col k)) = true ->
                 In p (delete_where fuel fks d T doomed (fk_ref_table k))) ->
    In r (delete_where fuel fks d T doomed C).
Proof.
  induction fuel as [|fuel IH]; intros d T doomed Hr Hdoom Hpar; [exact Hr|].
  rewrite delete_where_step.
  apply (fold_survives fuel d T doomed C r IH fks).
  - intros fk Hfk. exact Hfk.
  - intros tbl x Hx. eapply set_table_sub, Hx.
  - intros p Hp. rewrite set_table_same in Hp. apply filter_In in Hp.
    destruct Hp as [_ Hp]. now destruct (doomed p).
  - destruct (String.eqb_spec C T) as [HC|HC].
    + subst C. rewrite set_table_same. apply filter_In. split; [exact Hr|].
      now rewrite Hdoom.
    + now rewrite set_table_other.
  - intros k p Hk Hka Hkt Hp Hnn Heq.
    rewrite <- delete_where_step. now apply Hpar.
Qed.

Section Ranked.

Variable rank : string -> nat.
Hypothesis Hrank :
  forall fk, In fk fks -> fk_action fk = Cascade ->
             rank (fk_table fk) < rank (fk_ref_table fk).

(** A DELETE leaves alone the tables above the one it starts from. *)
Lemma delete_where_above (fuel : nat) :
  forall d X doomed Y, rank X < rank Y -> delete_where fuel fks d X doomed Y = d Y.
Proof.
  induction fuel as [|fuel IH]; intros d X doomed Y Hlt; [reflexivity|].
  rewrite delete_where_step. rewrite fold_pointwise.
  - apply set_table_other. intros ->. lia.
  - intros d' fk Hin.
    destruct (String.eqb (fk_ref_table fk) X && is_cascade (fk_action fk)) eqn:E;
      [|reflexivity].
    apply fires_spec in E. destruct E as [Href Hact].
    apply IH. pose proof (Hrank fk Hin Hact) as H. rewrite Href in H. lia.
Qed.

(** A cascading key that holds before a DELETE holds after it, the
    cascade being followed deep enough. *)
Lemma cascade_key_kept (k : fkey) (Hk : In k fks) (Hact : fk_action k = Cascade)
      (fuel : nat) :
  forall d T doomed,
    rank T < fuel -> fkey_holds d k = true ->
    fkey_holds (delete_where fuel fks d T doomed) k = true.
Proof.
  induction fuel as [|fuel IH]; intros d T doomed Hfuel Hd; [exact Hd|].
  destruct (String.eqb_spec (fk_ref_table k) T) as [HT|HT].
  - apply fkey_holds_spec. intros r Hr Hnn.
    assert (Hr0 : In r (d (fk_table k))) by (eapply delete_where_only_removes, Hr).
    pose proof (proj1 (fkey_holds_spec d k) Hd r Hr0 Hnn) as Href.
    apply refers_spec in Href. destruct Href as [_ [p [Hp Heq]]].
    apply refers_spec. split; [exact Hnn|]. exists p. split; [|exact Heq].
    rewrite HT in Hp |- *. rewrite delete_where_step, fold_pointwise.
    + rewrite set_table_same. apply filter_In. split; [exact Hp|].
      destruct (doomed p) eqn:Hdoom; [|reflexivity]. exfalso.
      assert (Hgone : refers k (filter doomed (d T)) r = true).
      { apply refers_spec. split; [exact Hnn|]. exists p. split; [|exact Heq].
        apply filter_In. split; [exact Hp | exact Hdoom]. }
      pose proof (Hrank k Hk Hact) as Hlt. rewrite HT in Hlt.
      destruct fuel as [|fuel']; [lia|].
      rewrite (delete_where_cascades fks fuel' d T doomed k r Hk HT Hact Hr) in Hgone.
      discriminate Hgone.
    + intros d' fk Hin.
      destruct (String.eqb (fk_ref_table fk) T && is_cascade (fk_action fk)) eqn:E;
        [|reflexivity].
      apply fires_spec in E. destruct E as [Hr' Ha'].
      apply delete_where_above. rewrite <- Hr'. now apply Hrank.
  - rewrite delete_where_step.
    apply (fold_invariant (fun d' => fkey_holds d' k = true)).
    + intros d' fk Hin Hd'.
      destruct (String.eqb (fk_ref_table fk) T && is_cascade (fk_action fk)) eqn:E;
        [|exact Hd'].
      apply fires_spec in E. destruct E as [Hr' Ha'].
      apply IH; [|exact Hd'].
      pose proof (Hrank fk Hin Ha') as Hlt. rewrite Hr' in Hlt. lia.
    + apply fkey_holds_spec. intros r Hr Hnn.
      rewrite set_table_other by exact HT.
      apply (proj1 (fkey_holds_spec d k) Hd r); [|exact Hnn].
      eapply set_table_sub, Hr.
Qed.

Lemma parent_stays (kj : fkey) (db final : database) (j p : row) :
  fkey_holds final kj = true ->
  (forall x, In x (final (fk_ref_table kj)) -> In x (db (fk_ref_table kj))) ->
  keys_distinct [fk_ref_col kj] (db (fk_ref_table kj)) = true ->
  In j (final (fk_table kj)) ->
  is_null (field j (fk_col kj)) = false ->
  In p (db (fk_ref_table kj)) ->
  field p (fk_ref_col kj) = field j (fk_col kj) ->
  In p (final (fk_ref_table kj)).
Proof.
  intros Hholds Hsub Hdist Hj Hnn Hp Heq.
  pose proof (proj1 (fkey_holds_spec final kj) Hholds j Hj Hnn) as Href.
  apply refers_spec in Href. destruct Href as [_ [p' [Hp' Heq']]].
  assert (E : p = p').
  { apply (keys_distinct_unique [fk_ref_col kj] (db (fk_ref_table kj)));
      [exact Hdist | exact Hp | apply Hsub, Hp' |].
    unfold same_on. cbn [forallb]. rewrite Heq, Hnn. cbn [negb andb].
    rewrite andb_true_r. apply value_eqb_eq in Heq'. rewrite Heq'.
    apply value_eqb_refl. }
  subst p'. exact Hp'.
Qed.

Lemma links_consistent_spec (db : database) (j l : row) :
  links_consistent db = true ->
  In j (db "join_events") -> In l (db "invite_links") ->
  value_eqb (field l "id") (field j "invite_link_id") = true ->
  agree (field l "tenant_id") (field j "tenant_id") = true
  /\ agree (field l "chat_id") (field j "chat_id") = true.
Proof.
  intros H Hj Hl Heq. unfold links_consistent in H.
  pose proof (proj1 (forallb_forall _ _) H j Hj) as H1. cbv beta in H1.
  pose proof (proj1 (forallb_forall _ _) H1 l Hl) as H2. cbv beta in H2.
  rewrite Heq in H2. cbn [negb orb] in H2. now apply andb_prop in H2.
Qed.

Lemma agree_eq (a b : value) : agree a b = true -> is_null a = false -> a = b.
Proof.
  unfold agree. intros H Hnn. rewrite Hnn in H. now apply value_eqb_eq.
Qed.

Section GoesThrough.

Variable fuel : nat.
Hypothesis Hfuel : rank "tenants" < fuel.
Hypothesis Hkinds : forall fk, In fk fks -> fk_action fk = Cascade \/ fk = link_key.
Hypothesis Hinto :
  forall k, In k fks -> fk_table k = "invite_links" -> fk_action k = Cascade ->
            k = tenant_key "invite_links" \/ k = SharedChat.chat_key "invite_links".
Hypothesis Hlink : In link_key fks.
Hypothesis Htk : In (tenant_key "join_events") fks.
Hypothesis Hck : In (SharedChat.chat_key "join_events") fks.

(** With ids distinct, references in order and join events consistent
    with their links, the cascade from a tenant leaves no reference
    dangling. *)
Lemma cascade_keeps_references (db : database) (t : N) :
  keys_distinct ["id"] (db "tenants") = true ->
  keys_distinct ["id"] (db "chats") = true ->
  referential_integrity fks db = true ->
  links_consistent db = true ->
  referential_integrity fks (cascade_tenant_with fks fuel db t) = true.
Proof.
  intros Hten Hchat Hint Hcons. unfold cascade_tenant_with.
  set (final := delete_where fuel fks db "tenants" (has_id t)).
  assert (Hsub : forall tbl x, In x (final tbl) -> In x (db tbl))
    by (intros tbl x; apply delete_where_only_removes).
  assert (Hcasc : forall k, In k fks -> fk_action k = Cascade ->
                            fkey_holds final k = true).
  { intros k Hk Hact. apply cascade_key_kept; [exact Hk | exact Hact | exact Hfuel|].
    exact (proj1 (forallb_forall _ _) Hint k Hk). }
  unfold referential_integrity. apply forallb_forall. intros fk Hfk.
  destruct (Hkinds fk Hfk) as [Hact| ->]; [now apply Hcasc|].
  apply fkey_holds_spec. intros j Hj Hnn.
  pose proof (proj1 (forallb_forall _ _) Hint link_key Hlink) as Hl0.
  pose proof (proj1 (fkey_holds_spec db link_key) Hl0 j (Hsub _ _ Hj) Hnn) as Href.
  apply refers_spec in Href. destruct Href as [_ [l [Hl Heq]]].
  apply refers_spec. split; [exact Hnn|]. exists l. split; [|exact Heq].
  cbn [link_key fk_table fk_col fk_ref_table fk_ref_col] in Hj, Hnn, Hl, Heq |- *.
  destruct (links_consistent_spec db j l Hcons (Hsub _ _ Hj) Hl Heq) as [Hat Hac].
  apply survives; [exact Hl | discriminate |].
  intros k p Hk Hact Htbl Hp Hnnl Hmatch.
  apply value_eqb_eq in Hmatch.
  destruct (Hinto k Hk Htbl Hact) as [->| ->];
    cbn [tenant_key SharedChat.chat_key fk_table fk_col fk_ref_table fk_ref_col]
      in Hp, Hnnl, Hmatch |- *.
  - apply agree_eq in Hat; [|exact Hnnl].
    apply (parent_stays (tenant_key "join_events") db final j p).
    + now apply Hcasc.
    + apply Hsub.
    + exact Hten.
    + exact Hj.
    + cbn [tenant_key fk_col]. rewrite <- Hat. exact Hnnl.
    + exact Hp.
    + cbn [tenant_key fk_col fk_ref_col]. rewrite <- Hat. exact Hmatch.
  - apply agree_eq in Hac; [|exact Hnnl].
    apply (parent_stays (SharedChat.chat_key "join_events") db final j p).
    + now apply Hcasc.
    + apply Hsub.
    + exact Hchat.
    + exact Hj.
    + cbn [SharedChat.chat_key fk_col]. rewrite <- Hac. exact Hnnl.
    + exact Hp.
    + cbn [SharedChat.chat_key fk_col fk_ref_col]. rewrite <- Hac. exact Hmatch.
Qed.

Lemma delete_goes_through (db : database) (t : N) :
  keys_distinct ["id"] (db "tenants") = true ->
  keys_distinct ["id"] (db "chats") = true ->
  referential_integrity fks db = true ->
  links_consistent db = true ->
  delete_tenant_with fks fuel db t = Some (cascade_tenant_with fks fuel db t).
Proof.
  intros Hten Hchat Hint Hcons. unfold delete_tenant_with. cbv zeta.
  now rewrite (cascade_keeps_references db t Hten Hchat Hint Hcons).
Qed.

End GoesThrough.

End Ranked.

End DeletionFacts.

Section SchemaDeletion.
Import Schema Relational Invariants.

Lemma schema_keys_ranked (fk : fkey) :
  In fk (foreign_keys schema) -> fk_action fk = Cascade ->
  cascade_depth (fk_table fk) < cascade_depth (fk_ref_table fk).
Proof.
  intros Hin Hact.
  assert (H : forallb (fun fk => negb (is_cascade (fk_action fk))
                                 || Nat.ltb (cascade_depth (fk_table fk))
                                            (cascade_depth (fk_ref_table fk)))
                      (foreign_keys schema) = true) by (vm_compute; reflexivity).
  pose proof (proj1 (forallb_forall _ _) H fk Hin) as Hone. cbv beta in Hone.
  rewrite Hact in Hone. cbn [is_cascade negb orb] in Hone. now apply Nat.ltb_lt.
Qed.

Lemma schema_key_kinds (fk : fkey) :
  In fk (foreign_keys schema) -> fk_action fk = Cascade \/ fk = link_key.
Proof.
  intro H. vm_compute in H.
  repeat (destruct H as [<-|H]; [first [left; reflexivity | right; reflexivity]|]).
  destruct H.
Qed.

Lemma schema_keys_into_links (k : fkey) :
  In k (foreign_keys schema) -> fk_table k = "invite_links" -> fk_action k = Cascade ->
  k = tenant_key "invite_links" \/ k = SharedChat.chat_key "invite_links".
Proof.
  intros H Htbl Hact. vm_compute in H.
  repeat (destruct H as [<-|H];
          [first [discriminate Htbl | discriminate Hact
                 | left; reflexivity | right; reflexivity]|]).
  destruct H.
Qed.

Lemma ids_distinct (db : database) (tb : table) :
  keys_ok db = true -> In tb schema -> In ["id"] (key_columns tb) ->
  keys_distinct ["id"] (db (tbl_name tb)) = true.
Proof.
  intros H Ht Hk. unfold keys_ok in H.
  pose proof (proj1 (forallb_forall _ _) H tb Ht) as Hc. cbv beta in Hc.
  exact (proj1 (forallb_forall _ _) Hc ["id"] Hk).
Qed.

(** In a database whose keys and references hold and whose join events
    agree with their invite links, the deletion of a tenant goes through,
    and ends where the cascade ends. *)
Lemma delete_tenant_goes_through (db : database) (t : N) :
  keys_ok db = true ->
  referential_integrity (foreign_keys schema) db = true ->
  links_consistent db = true ->
  delete_tenant db t = Some (cascade_tenant db t).
Proof.
  intros Hkeys Hint Hcons. rewrite delete_tenant_eq, cascade_tenant_eq.
  apply (delete_goes_through (foreign_keys schema) cascade_depth schema_keys_ranked 8).
  - change (2 < 8). lia.
  - exact schema_key_kinds.
  - exact schema_keys_into_links.
  - vm_compute; tauto.
  - vm_compute; tauto.
  - vm_compute; tauto.
  - apply (ids_distinct db tenants Hkeys); vm_compute; tauto.
  - apply (ids_distinct db chats Hkeys); vm_compute; tauto.
  - exact Hint.
  - exact Hcons.
Qed.

(** What a deletion that goes through leaves. *)
Lemma delete_tenant_removes (db db' : database) (t : N) (tenant : row) :
  In tenant (db "tenants") -> has_id t tenant = true ->
  delete_tenant db t = Some db' ->
  (forall r, In r (db' "tenants") -> has_id t r = false)
  /\ (forall tbl r, In tbl table_names -> tbl <> "tenants" ->
                    In r (db' tbl) -> owned_by t r = false)
  /\ (forall tbl r, In r (db' tbl) -> In r (db tbl)).
Proof.
  intros Hrow Hid Hdel. rewrite delete_tenant_eq in Hdel.
  apply delete_is_cascade in Hdel. subst db'.
  split; [|split].
  - intro r. apply cascade_removes_tenant.
  - intros tbl r Hin Hne.
    apply cascade_removes_owned with (tenant := tenant);
      [now apply tenant_key_declared | exact Hrow | exact Hid].
  - intros tbl r. apply cascade_only_removes.
Qed.

Lemma tenant_columns (tb : table) :
  In tb schema -> tbl_name tb <> "tenants" ->
  references_tenant tb = true /\ tenant_id_nullable tb = true.
Proof.
  intros Hin Hne. simpl in Hin.
  repeat (destruct Hin as [<-|Hin]; [try (now elim Hne); split; reflexivity|]).
  destruct Hin.
Qed.

Lemma one_owner (r : row) (t1 t2 : N) :
  owned_by t1 r = true -> owned_by t2 r = true -> t1 = t2.
Proof.
  unfold owned_by. intros H1 H2.
  apply value_eqb_uuid in H1. apply value_eqb_uuid in H2. congruence.
Qed.

End SchemaDeletion.

(** ** db/schema.sql: tenants own rows *)

(** C4, as stated, fails: the rows are not partitioned per tenant.  After
    INSERTs that the schema all accepts, a user row is stored whose
    tenant_id is no tenant's id: it is NULL. *)
Lemma rows_not_partitioned_per_tenant :
  ~ (forall stmts db tbl r,
       Fixtures.load Relational.empty_db stmts = Some db ->
       In tbl Schema.table_names -> tbl <> "tenants" ->
       In r (db tbl) ->
       exists tn, In tn (db "tenants")
                  /\ Relational.field tn "id" = Relational.field r "tenant_id").
Proof.
  intro H.
  destruct (H Fixtures.with_tenantless_user_rows
              (Fixtures.or_empty_db
                 (Fixtures.load Relational.empty_db Fixtures.with_tenantless_user_rows))
              "users" Fixtures.tenantless_user)
    as [tn [Htn Hid]].
  - vm_compute. reflexivity.
  - vm_compute. tauto.
  - discriminate.
  - vm_compute. tauto.
  - vm_compute in Htn. destruct Htn as [<-|[<-|[]]]; discriminate Hid.
Qed.

(** The sample data and the shared chat have join events that agree with
    their invite links; the crossed reference does not. *)
Example sample_links_consistent :
  (Invariants.links_consistent Fixtures.two_tenants,
   Invariants.links_consistent SharedChat.db,
   Invariants.links_consistent Fixtures.crossed)
  = (true, true, false).
Proof. vm_compute. reflexivity. Qed.

(** C4, amended.  Every table of the schema but [tenants] has the column
    [tenant_id uuid REFERENCES tenants(id) ON DELETE CASCADE], and the
    column is nullable.  So a row of the six other tables is owned by at
    most one tenant: an INSERT is accepted only if the row's [tenant_id]
    is NULL or the id of a tenant that exists, and a row with no tenant is
    accepted.  A DELETE of an existing tenant row that goes through leaves,
    in [tenants], no row with that id and, in each of the six other
    tables, no row whose [tenant_id] is that tenant, and it adds no row
    anywhere.  The DELETE goes through whenever the primary keys, the
    UNIQUE constraints and the references of the database hold and every
    join event carries the tenant_id and the chat_id of the invite link it
    names. *)
Theorem tenant_delete_cascades
        (db : Relational.database) (t : N) (tenant : Relational.row)
        (Hrow : In tenant (db "tenants"))
        (Hid : Relational.has_id t tenant = true) :
  (forall tb, In tb Schema.schema -> Schema.tbl_name tb <> "tenants" ->
              Schema.references_tenant tb = true
              /\ Invariants.tenant_id_nullable tb = true)
  /\ (forall r t1 t2, Relational.owned_by t1 r = true ->
                      Relational.owned_by t2 r = true -> t1 = t2)
  /\ (forall tbl r db', In tbl Schema.table_names -> tbl <> "tenants" ->
        Relational.insert db tbl r = Some db' ->
        Relational.field r "tenant_id" = Schema.Vnull
        \/ exists tn, In tn (db "tenants")
                      /\ Relational.field tn "id" = Relational.field r "tenant_id")
  /\ (exists db', Relational.insert Fixtures.two_tenants "users" Fixtures.tenantless_user
                  = Some db')
  /\ (forall db', Relational.delete_tenant db t = Some db' ->
        (forall r, In r (db' "tenants") -> Relational.has_id t r = false)
        /\ (forall tbl r, In tbl Schema.table_names -> tbl <> "tenants" ->
                          In r (db' tbl) -> Relational.owned_by t r = false)
        /\ (forall tbl r, In r (db' tbl) -> In r (db tbl)))
  /\ (Invariants.keys_ok db = true ->
      Relational.referential_integrity (Relational.foreign_keys Schema.schema) db = true ->
      Invariants.links_consistent db = true ->
      exists db', Relational.delete_tenant db t = Some db').
Proof.
  split; [exact tenant_columns|].
  split; [exact one_owner|].
  split; [intros tbl r db' Hin Hne; now apply insert_checks_tenant|].
  split; [eexists; vm_compute; reflexivity|].
  split; [intros db' Hdel; exact (delete_tenant_removes db db' t tenant Hrow Hid Hdel)|].
  intros Hkeys Hint Hcons. eexists.
  exact (delete_tenant_goes_through db t Hkeys Hint Hcons).
Qed.

(** The deletion of tenant 1 from the sample data goes through and leaves
    no row of tenant 1. *)
Lemma tenant_delete_cascades_witness :
  In (Fixtures.tenant_row 1 "acme" 1001) (Fixtures.two_tenants "tenants")
  /\ Relational.has_id 1 (Fixtures.tenant_row 1 "acme" 1001) = true
  /\ exists db', Relational.delete_tenant Fixtures.two_tenants 1 = Some db'
                 /\ (forall tbl r, In tbl Schema.table_names -> tbl <> "tenants" ->
                                   In r (db' tbl) -> Relational.owned_by 1 r = false).
Proof.
  assert (Hrow : In (Fixtures.tenant_row 1 "acme" 1001) (Fixtures.two_tenants "tenants"))
    by (vm_compute; left; reflexivity).
  assert (Hkeys : Invariants.keys_ok Fixtures.two_tenants = true)
    by (vm_compute; reflexivity).
  assert (Hint : Relational.referential_integrity
                   (Relational.foreign_keys Schema.schema) Fixtures.two_tenants = true)
    by (vm_compute; reflexivity).
  assert (Hcons : Invariants.links_consistent Fixtures.two_tenants = true)
    by (vm_compute; reflexivity).
  pose proof (tenant_delete_cascades Fixtures.two_tenants 1
                (Fixtures.tenant_row 1 "acme" 1001) Hrow eq_refl) as H.
  destruct H as (_ & _ & _ & _ & Hgone & Hgoes).
  destruct (Hgoes Hkeys Hint Hcons) as [db' Hdel].
  destruct (Hgone db' Hdel) as (_ & Howned & _).
  split; [exact Hrow | split; [reflexivity|]].
  exists db'. split; [exact Hdel | exact Howned].
Defined.

(** ** db/schema.sql: what the script declares *)

Section SchemaFacts.
Import Schema Relational.

Lemma columns_builtin :
  forallb (fun t => forallb (fun c => builtin_type (col_type c)) (tbl_columns t)) schema
  = true.
Proof. reflexivity. Qed.

Lemma restrictions_classified :
  forallb (fun t => forallb (fun ck => is_primary_key (snd ck) || is_foreign_key (snd ck)
                                       || is_not_null (snd ck))
                            (column_restrictions t)) schema
  = true.
Proof. reflexivity. Qed.

Lemma table_constraints_unique :
  forallb (fun t => forallb is_unique (tbl_constraints t)) schema = true.
Proof. reflexivity. Qed.

Lemma references_simple :
  forallb (fun fk => String.eqb (fk_ref_col fk) "id"
                     && existsb (String.eqb (fk_ref_table fk)) table_names)
          (foreign_keys schema)
  = true.
Proof. reflexivity. Qed.

End SchemaFacts.

(** C3, as stated, fails: [tenants.name] is declared NOT NULL, a
    constraint that is neither a primary key, nor a foreign key, nor a
    uniqueness constraint. *)
Lemma schema_has_not_null_constraints :
  ~ (forall t ck, In t Schema.schema -> In ck (Schema.column_restrictions t) ->
       Schema.is_primary_key (snd ck) || Schema.is_foreign_key (snd ck)
       || Schema.is_col_unique (snd ck) = true).
Proof.
  intro H.
  specialize (H Schema.tenants ("name", Schema.NotNull)).
  assert (Ht : In Schema.tenants Schema.schema) by (left; reflexivity).
  assert (Hc : In ("name", Schema.NotNull) (Schema.column_restrictions Schema.tenants))
    by (right; left; reflexivity).
  specialize (H Ht Hc). discriminate H.
Qed.

(** C3, amended.  The script is seven CREATE TABLE statements and nothing
    else (tenants, users, chats, invite_links, join_events, subscriptions,
    payments); every column has a built-in type; every column-level
    constraint is a PRIMARY KEY (the [id] of each table), a single-column
    REFERENCES to the [id] of a table of the schema, or a NOT NULL (on
    five columns); and the table-level constraints are the two UNIQUE
    constraints, on users (tenant_id, tg_user_id) and on chats
    (tenant_id, tg_chat_id). *)
Theorem schema_constraints :
  forallb Schema.is_create_table Schema.script = true
  /\ Schema.table_names
     = ["tenants"; "users"; "chats"; "invite_links"; "join_events";
        "subscriptions"; "payments"]
  /\ (forall t c, In t Schema.schema -> In c (Schema.tbl_columns t) ->
                  Schema.builtin_type (Schema.col_type c) = true)
  /\ (forall t ck, In t Schema.schema -> In ck (Schema.column_restrictions t) ->
        Schema.is_primary_key (snd ck) || Schema.is_foreign_key (snd ck)
        || Schema.is_not_null (snd ck) = true)
  /\ Schema.primary_keys Schema.schema
     = map (fun name => (name, "id")) Schema.table_names
  /\ (forall fk, In fk (Relational.foreign_keys Schema.schema) ->
        Relational.fk_ref_col fk = "id"
        /\ In (Relational.fk_ref_table fk) Schema.table_names)
  /\ Schema.not_nulls Schema.schema
     = [ ("tenants", "name"); ("tenants", "owner_user_id"); ("users", "tg_user_id");
         ("chats", "tg_chat_id"); ("invite_links", "invite_link") ]
  /\ (forall t k, In t Schema.schema -> In k (Schema.tbl_constraints t) ->
                  Schema.is_unique k = true)
  /\ Schema.uniques Schema.schema
     = [ ("users", ["tenant_id"; "tg_user_id"]); ("chats", ["tenant_id"; "tg_chat_id"]) ].
Proof.
  split; [reflexivity|]. split; [reflexivity|].
  split.
  { intros t c Ht Hc.
    pose proof (proj1 (forallb_forall _ _) columns_builtin t Ht) as H.
    exact (proj1 (forallb_forall _ _) H c Hc). }
  split.
  { intros t ck Ht Hck.
    pose proof (proj1 (forallb_forall _ _) restrictions_classified t Ht) as H.
    exact (proj1 (forallb_forall _ _) H ck Hck). }
  split; [reflexivity|].
  split.
  { intros fk Hfk.
    pose proof (proj1 (forallb_forall _ _) references_simple fk Hfk) as H.
    apply andb_prop in H. destruct H as [Hcol Htbl].
    split; [now apply String.eqb_eq|].
    apply existsb_exists in Htbl. destruct Htbl as [n [Hn Heq]].
    apply String.eqb_eq in Heq. now rewrite Heq. }
  split; [reflexivity|].
  split; [|reflexivity].
  intros t k Ht Hk.
  pose proof (proj1 (forallb_forall _ _) table_constraints_unique t Ht) as H.
  exact (proj1 (forallb_forall _ _) H k Hk).
Qed.

(** ** frontend-miniapp/vite.config.js *)

(** C7.  The dev server's [host] is [true], which binds every interface;
    its port is 5173 with [strictPort] on, so a start finds port 5173 or
    fails, and never another port; and [allowedHosts] is the three entries
    '.ngrok-free.app', '.trycloudflare.com' and 'localhost'. *)
Theorem dev_server_config :
  ViteConfig.host (ViteConfig.server ViteConfig.config) = ViteConfig.HostFlag true
  /\ ViteConfig.resolve_host (ViteConfig.host (ViteConfig.server ViteConfig.config))
     = ViteConfig.AllInterfaces
  /\ ViteConfig.port (ViteConfig.server ViteConfig.config) = 5173%N
  /\ ViteConfig.strictPort (ViteConfig.server ViteConfig.config) = true
  /\ ViteConfig.allowedHosts (ViteConfig.server ViteConfig.config)
     = [".ngrok-free.app"; ".trycloudflare.com"; "localhost"]
  /\ (forall in_use,
        ViteConfig.start ViteConfig.config in_use
        = if in_use 5173%N then None else Some (ViteConfig.AllInterfaces, 5173%N)).
Proof.
  repeat (split; [reflexivity|]).
  intro in_use. unfold ViteConfig.start, ViteConfig.listen.
  cbn [ViteConfig.config ViteConfig.server ViteConfig.port ViteConfig.strictPort
       ViteConfig.host ViteConfig.resolve_host].
  destruct (in_use 5173%N); reflexivity.
Qed.

(** ** The pay buttons *)

Section PayFacts.
Import JS.

Lemma truthy_spec (e : env) :
  truthy e = true <-> exists name, e = Some name /\ name <> EmptyString.
Proof.
  split.
  - destruct e as [[|c s]|]; simpl; try discriminate.
    intros _. exists (String c s). split; [reflexivity | discriminate].
  - intros [name [-> Hne]]. destruct name; [now elim Hne | reflexivity].
Qed.

Lemma truthy_false (e : env) :
  truthy e = false <-> e = None \/ e = Some EmptyString.
Proof.
  destruct e as [[|c s]|]; simpl; split; intro H; try reflexivity; try discriminate;
    try (now left); try (now right).
  destruct H as [H|H]; discriminate H.
Qed.

(** The plans page: a set username gives one [window.open] of the link. *)
Lemma openInChat_set (name code : string) :
  name <> EmptyString ->
  Plans.openInChat (Some name) code
  = ([WindowOpen ("https://t.me/" ++ name ++ "?start=BUY_PRO_" ++ code) "_blank"],
     Normal tt).
Proof. destruct name; [intro H; now elim H | reflexivity]. Qed.

Lemma openInChat_unset (e : env) (code : string) :
  truthy e = false ->
  Plans.openInChat e code
  = ([Alert "VITE_BOT_USERNAME is not set. Add it to frontend-miniapp/.env"], Normal tt).
Proof. intro H. unfold Plans.openInChat. rewrite H. reflexivity. Qed.

Lemma openInChatPay_set (name : string) (tg : App.state) :
  name <> EmptyString ->
  trace (App.openInChatPay (Some name) tg)
  = [App.pay_event tg ("https://t.me/" ++ name ++ "?start=BUY_PRO")].
Proof.
  destruct name as [|c s]; [intro H; now elim H|]. intros _.
  unfold App.openInChatPay, App.pay_event. cbn [or_empty truthy interpolate is_empty].
  destruct tg as [a|]; [destruct (openTelegramLink a)|]; reflexivity.
Qed.

Lemma openInChatPay_unset (e : env) (tg : App.state) :
  truthy e = false ->
  App.openInChatPay e tg
  = ([Alert "Bot username missing. Set VITE_BOT_USERNAME in .env."], Normal tt).
Proof.
  intro H. unfold App.openInChatPay, or_empty. rewrite H. reflexivity.
Qed.

Lemma pay_event_navigates (tg : App.state) (url : string) :
  is_navigation (App.pay_event tg url) = true
  /\ navigated_url (App.pay_event tg url) = Some url.
Proof.
  unfold App.pay_event. destruct tg as [a|]; [destruct (openTelegramLink a)|];
    split; reflexivity.
Qed.

Lemma prefix_append (a rest : string) : String.prefix a (a ++ rest) = true.
Proof.
  induction a as [|c a IH]; simpl; [now destruct rest|].
  destruct (ascii_dec c c) as [_|Hne]; [exact IH | now elim Hne].
Qed.

Lemma t_me_prefix (rest : string) :
  String.prefix "https://t.me/" ("https://t.me/" ++ rest) = true.
Proof. apply prefix_append. Qed.

Lemma append_cancel (a x y : string) : a ++ x = a ++ y -> x = y.
Proof.
  induction a as [|c a IH]; simpl; intro H; [exact H|].
  inversion H. now apply IH.
Qed.

End PayFacts.

(** C2.  With the bot username set (a non-empty string): the button of
    every card of the plans page opens, by one [window.open] in a new tab,
    exactly "https://t.me/" + botUsername + "?start=BUY_PRO_" + the code of
    the card's plan, and every plan has its card; the button of the App's
    Pro card opens exactly "https://t.me/" + botUsername + "?start=BUY_PRO",
    by the [openTelegramLink] of the bridge in the component's state when
    there is one with that method, and by [window.open] in a new tab
    otherwise. *)
Theorem pay_buttons_deep_link (name : string) (Hset : name <> EmptyString) :
  (map Plans.card_onClick (Plans.SubscriptionPlans (Some name))
   = map (fun p => ([JS.WindowOpen ("https://t.me/" ++ name ++ "?start=BUY_PRO_"
                                    ++ Plans.code p) "_blank"],
                    JS.Normal tt))
         Plans.plans)
  /\ (forall code,
        Plans.openInChat (Some name) code
        = ([JS.WindowOpen ("https://t.me/" ++ name ++ "?start=BUY_PRO_" ++ code) "_blank"],
           JS.Normal tt))
  /\ (forall tg, App.onClick (App.pro_card (Some name) tg)
                 = App.openInChatPay (Some name) tg)
  /\ (forall a f, JS.openTelegramLink a = Some f ->
        App.openInChatPay (Some name) (Some a)
        = ([JS.OpenTelegramLink ("https://t.me/" ++ name ++ "?start=BUY_PRO")],
           f ("https://t.me/" ++ name ++ "?start=BUY_PRO")))
  /\ (forall tg,
        tg = None \/ (exists a, tg = Some a /\ JS.openTelegramLink a = None) ->
        App.openInChatPay (Some name) tg
        = ([JS.WindowOpen ("https://t.me/" ++ name ++ "?start=BUY_PRO") "_blank"],
           JS.Normal tt)).
Proof.
  destruct name as [|c s]; [now elim Hset|]. clear Hset.
  split; [reflexivity|]. split; [reflexivity|]. split; [reflexivity|]. split.
  - intros a f Hf. unfold App.openInChatPay.
    cbn [JS.or_empty JS.truthy JS.interpolate JS.is_empty]. now rewrite Hf.
  - intros tg [->|[a [-> Ha]]]; unfold App.openInChatPay;
      cbn [JS.or_empty JS.truthy JS.interpolate JS.is_empty];
      [reflexivity | now rewrite Ha].
Qed.

Lemma pay_buttons_deep_link_witness :
  "daaskobot" <> EmptyString
  /\ Plans.openInChat (Some "daaskobot") "PRO_QUARTER"
     = ([JS.WindowOpen "https://t.me/daaskobot?start=BUY_PRO_PRO_QUARTER" "_blank"],
        JS.Normal tt)
  /\ App.openInChatPay (Some "daaskobot") (Some Hosts.full_bridge)
     = ([JS.OpenTelegramLink "https://t.me/daaskobot?start=BUY_PRO"], JS.Normal tt)
  /\ App.openInChatPay (Some "daaskobot") (Some Hosts.old_bridge)
     = ([JS.WindowOpen "https://t.me/daaskobot?start=BUY_PRO" "_blank"], JS.Normal tt).
Proof.
  assert (Hset : "daaskobot" <> EmptyString) by discriminate.
  destruct (pay_buttons_deep_link "daaskobot" Hset) as (_ & Hplan & _ & Hlink & Hopen).
  split; [exact Hset|].
  split; [exact (Hplan "PRO_QUARTER")|].
  split; [exact (Hlink Hosts.full_bridge (fun _ => JS.Normal tt) eq_refl)|].
  apply Hopen. right. exists Hosts.old_bridge. split; reflexivity.
Defined.

(** C8.  With the bot username unset or empty, [openInChat(c)] and
    [openInChatPay] show their alert and return, with no call of
    [window.open] or [openTelegramLink]; and either of them makes a
    navigation call exactly when the bot username is a non-empty string. *)
Theorem pay_needs_username (e : JS.env) (code : string) (tg : App.state) :
  (e = None \/ e = Some EmptyString ->
     Plans.openInChat e code
     = ([JS.Alert "VITE_BOT_USERNAME is not set. Add it to frontend-miniapp/.env"],
        JS.Normal tt)
     /\ App.openInChatPay e tg
        = ([JS.Alert "Bot username missing. Set VITE_BOT_USERNAME in .env."],
           JS.Normal tt))
  /\ (existsb JS.is_navigation (JS.trace (Plans.openInChat e code)) = true
      <-> exists name, e = Some name /\ name <> EmptyString)
  /\ (existsb JS.is_navigation (JS.trace (App.openInChatPay e tg)) = true
      <-> exists name, e = Some name /\ name <> EmptyString).
Proof.
  split; [|split].
  - intro H. apply truthy_false in H.
    split; [now apply openInChat_unset | now apply openInChatPay_unset].
  - rewrite <- truthy_spec. destruct (JS.truthy e) eqn:Ht.
    + apply truthy_spec in Ht. destruct Ht as [name [-> Hne]].
      rewrite (openInChat_set name code Hne). split; reflexivity.
    + rewrite (openInChat_unset e code Ht). split; intro H; discriminate H.
  - rewrite <- truthy_spec. destruct (JS.truthy e) eqn:Ht.
    + apply truthy_spec in Ht. destruct Ht as [name [-> Hne]].
      rewrite (openInChatPay_set name tg Hne). cbn [existsb].
      rewrite (proj1 (pay_event_navigates tg _)). split; reflexivity.
    + rewrite (openInChatPay_unset e tg Ht). split; intro H; discriminate H.
Qed.

(** C10.  The two views disagree on the Pro 30-day plan.  The plans page
    lists it under the code PRO_MONTH at 300 stars, shows "300★" and
    links with the start parameter BUY_PRO_PRO_MONTH; the App shows its
    Pro card, period "30 days", at "1000★" and links with the start
    parameter BUY_PRO.  Neither the prices nor, for any bot username, the
    links are equal. *)
Theorem pro_month_views_differ :
  nth_error Plans.plans 0
  = Some (Plans.Plan "PRO_MONTH" "Pro — 30 days"
                     "Advanced analytics, campaigns & mass DM." 300)
  /\ (forall e, map Plans.card_price (Plans.SubscriptionPlans e) = ["300★"; "800★"])
  /\ (forall name, name <> EmptyString ->
        JS.trace (Plans.openInChat (Some name) "PRO_MONTH")
        = [JS.WindowOpen ("https://t.me/" ++ name ++ "?start=" ++ "BUY_PRO_PRO_MONTH")
                         "_blank"])
  /\ (forall e tg, App.title (App.pro_card e tg) = "Pro"
                   /\ App.period (App.pro_card e tg) = "30 days"
                   /\ App.price (App.pro_card e tg) = "1000★")
  /\ (forall name tg, name <> EmptyString ->
        map JS.navigated_url (JS.trace (App.openInChatPay (Some name) tg))
        = [Some ("https://t.me/" ++ name ++ "?start=" ++ "BUY_PRO")])
  /\ "300★" <> "1000★"
  /\ "BUY_PRO_" ++ "PRO_MONTH" = "BUY_PRO_PRO_MONTH"
  /\ (forall name,
        "https://t.me/" ++ name ++ "?start=" ++ "BUY_PRO_PRO_MONTH"
        <> "https://t.me/" ++ name ++ "?start=" ++ "BUY_PRO").
Proof.
  split; [reflexivity|]. split; [reflexivity|]. split.
  { intros name Hne. now rewrite (openInChat_set name "PRO_MONTH" Hne). }
  split; [intros; repeat split|]. split.
  { intros name tg Hne. rewrite (openInChatPay_set name tg Hne). cbn [map].
    now rewrite (proj2 (pay_event_navigates tg _)). }
  split; [discriminate|]. split; [reflexivity|].
  intros name H. apply append_cancel in H. apply append_cancel in H.
  discriminate H.
Qed.

(** ** Payment providers *)

(** C6, as stated, fails: the [provider] column of [subscriptions] admits
    the provider name 'stripe' (one of those its own comment lists), and
    the sample database accepts a subscription row that carries it. *)
Lemma schema_admits_other_providers :
  ~ (forall t c v,
       In t Schema.schema -> In c (Schema.tbl_columns t) ->
       Schema.col_name c = "provider" \/ Schema.col_name c = "method" ->
       Relational.column_admits c v = true ->
       v = Schema.Vnull \/ v = Schema.Vtext "stars").
Proof.
  intro H.
  assert (Ht : In Schema.subscriptions Schema.schema) by (vm_compute; tauto).
  assert (Hc : In (Schema.Col "provider" Schema.Ttext [])
                  (Schema.tbl_columns Schema.subscriptions)) by (vm_compute; tauto).
  destruct (H _ _ (Schema.Vtext "stripe") Ht Hc (or_introl eq_refl) eq_refl)
    as [Hv|Hv]; discriminate Hv.
Qed.

Example stripe_subscription_accepted :
  match Relational.insert Fixtures.two_tenants "subscriptions"
          (Fixtures.subscription_row 53 1 5001 "stripe") with
  | Some db => Fixtures.ids db "subscriptions"
  | None => []
  end
  = [Schema.Vuuid 51; Schema.Vuuid 52; Schema.Vuuid 53].
Proof. vm_compute. reflexivity. Qed.

(** C6, amended.  What the mini-app offers is payment in Telegram Stars
    inside the chat: every link a pay action opens is a link to the bot on
    t.me, the button of every plan card reads "Pay in Telegram (Stars)",
    and the App says so in its notice.  The schema does not restrict the
    provider: [subscriptions.provider] and [payments.method] are plain text
    columns without constraint, which admit every provider or method
    name. *)
Theorem stars_in_app_any_provider_in_schema :
  (forall e code ev u,
      In ev (JS.trace (Plans.openInChat e code)) -> JS.navigated_url ev = Some u ->
      String.prefix "https://t.me/" u = true)
  /\ (forall e tg ev u,
        In ev (JS.trace (App.openInChatPay e tg)) -> JS.navigated_url ev = Some u ->
        String.prefix "https://t.me/" u = true)
  /\ (forall e, map Plans.card_button (Plans.SubscriptionPlans e)
                = map (fun _ => "Pay in Telegram (Stars)") Plans.plans)
  /\ App.notice
     = ["Pay safely with "; "Telegram Stars"; " inside the chat. No external providers."]
  /\ Schema.find_column Schema.subscriptions "provider"
     = Some (Schema.Col "provider" Schema.Ttext [])
  /\ Schema.find_column Schema.payments "method"
     = Some (Schema.Col "method" Schema.Ttext [])
  /\ (forall name s, Relational.column_admits (Schema.Col name Schema.Ttext [])
                                              (Schema.Vtext s) = true).
Proof.
  split; [|split].
  - intros e code ev u Hev Hu. destruct (JS.truthy e) eqn:Ht.
    + apply truthy_spec in Ht. destruct Ht as [name [-> Hne]].
      rewrite (openInChat_set name code Hne) in Hev.
      destruct Hev as [<-|[]]. cbn [JS.navigated_url] in Hu.
      injection Hu as <-. apply t_me_prefix.
    + rewrite (openInChat_unset e code Ht) in Hev.
      destruct Hev as [<-|[]]. discriminate Hu.
  - intros e tg ev u Hev Hu. destruct (JS.truthy e) eqn:Ht.
    + apply truthy_spec in Ht. destruct Ht as [name [-> Hne]].
      rewrite (openInChatPay_set name tg Hne) in Hev.
      destruct Hev as [<-|[]].
      rewrite (proj2 (pay_event_navigates tg _)) in Hu.
      injection Hu as <-. apply t_me_prefix.
    + rewrite (openInChatPay_unset e tg Ht) in Hev.
      destruct Hev as [<-|[]]. discriminate Hu.
  - repeat (split; [reflexivity|]). intros name s. reflexivity.
Qed.

(** ** src/utils/telegram.js *)

Section BridgeFacts.
Import JS TelegramUtils.

(** [JSON.stringify] gives undefined for undefined, for functions and for
    symbols. *)
Lemma stringify_undefined (data : value) :
  data = JUndefined \/ (exists name f, data = JFunction name f)
  \/ (exists d, data = JSymbol d) ->
  JSON_stringify data = Normal None.
Proof. intros [->|[[name [f ->]]|[d ->]]]; reflexivity. Qed.

Lemma sendDataToBot_present (w : Window) (tg : WebApp) (data : value) :
  optional_WebApp w = Some tg ->
  sendDataToBot w data
  = match JSON_stringify data with
    | Throw e => ([], Throw e)
    | Normal json => call_sendData tg (of_result json)
    end.
Proof.
  intro H. unfold sendDataToBot. rewrite H. unfold bind, lift.
  destruct (JSON_stringify data) as [json|e]; [|reflexivity].
  destruct (call_sendData tg (of_result json)) as [tr r]. reflexivity.
Qed.

Lemma sendDataToBot_absent (w : Window) (data : value) :
  optional_WebApp w = None ->
  sendDataToBot w data = ([ConsoleWarn "Telegram WebApp not available."], Normal tt).
Proof. intro H. unfold sendDataToBot. now rewrite H. Qed.

Lemma initTelegramWebApp_present (w : Window) (ns : TelegramNS) :
  Telegram w = Some ns ->
  initTelegramWebApp w
  = (match WebApp_slot ns with
     | SObject tg => match expand tg with Some _ => [Expand] | None => [] end
     | _ => []
     end,
     Normal (handle_of (WebApp_slot ns))).
Proof.
  intro H. unfold initTelegramWebApp. rewrite H.
  destruct (WebApp_slot ns) as [| |p|tg]; simpl; try reflexivity.
  unfold call. destruct (expand tg) as [[[]|e]|]; reflexivity.
Qed.

(** A truthy slot whose value has a method [expand] holds an object. *)
Lemma as_bridge_object (s : slot) (tg : WebApp) (r : completion unit) :
  as_bridge s = Some tg -> expand tg = Some r -> s = SObject tg.
Proof.
  destruct s as [| |p|a]; simpl; intros H Hr; try discriminate H.
  - destruct (truthy_primitive p); [|discriminate H].
    inversion H; subst tg. discriminate Hr.
  - now inversion H.
Qed.

Lemma initTelegramWebApp_bridge (w : Window) (ns : TelegramNS) (tg : WebApp)
      (r : completion unit) :
  Telegram w = Some ns -> WebApp_of ns = Some tg -> expand tg = Some r ->
  initTelegramWebApp w = ([Expand], Normal (HObject tg)).
Proof.
  intros Hns Htg Hr. rewrite (initTelegramWebApp_present w ns Hns).
  unfold WebApp_of in Htg. rewrite (as_bridge_object _ _ _ Htg Hr).
  cbn [handle_of]. now rewrite Hr.
Qed.

Lemma initTelegramWebApp_optional (w : Window) (tg : WebApp) (r : completion unit) :
  optional_WebApp w = Some tg -> expand tg = Some r ->
  initTelegramWebApp w = ([Expand], Normal (HObject tg)).
Proof.
  unfold optional_WebApp. intros Htg Hr.
  destruct (Telegram w) as [ns|] eqn:Hns; [|discriminate Htg].
  exact (initTelegramWebApp_bridge w ns tg r Hns Htg Hr).
Qed.

(** A truthy slot whose value has a method [sendData] holds an object, and
    [initTelegramWebApp] returns it. *)
Lemma initTelegramWebApp_sender (w : Window) (tg : WebApp)
      (send : value -> completion unit) :
  optional_WebApp w = Some tg -> sendData tg = Some send ->
  initTelegramWebApp w
  = (match expand tg with Some _ => [Expand] | None => [] end, Normal (HObject tg)).
Proof.
  unfold optional_WebApp, WebApp_of. intros Htg Hsend.
  destruct (Telegram w) as [ns|] eqn:Hns; [|discriminate Htg].
  rewrite (initTelegramWebApp_present w ns Hns).
  destruct (WebApp_slot ns) as [| |p|a]; simpl in Htg; try discriminate Htg.
  - destruct (truthy_primitive p); [|discriminate Htg].
    inversion Htg; subst tg. discriminate Hsend.
  - inversion Htg; subst a. reflexivity.
Qed.

Lemma initTelegramWebApp_trace (w : Window) :
  trace (initTelegramWebApp w) = [] \/ trace (initTelegramWebApp w) = [Expand].
Proof.
  destruct (Telegram w) as [ns|] eqn:Hns.
  - rewrite (initTelegramWebApp_present w ns Hns). cbn [trace fst].
    destruct (WebApp_slot ns) as [| |p|tg]; try (left; reflexivity).
    destruct (expand tg); [right | left]; reflexivity.
  - unfold initTelegramWebApp. rewrite Hns. left. reflexivity.
Qed.

Lemma sendDataToBot_trace (w : Window) (data : value) :
  trace (sendDataToBot w data) = []
  \/ (exists v, trace (sendDataToBot w data) = [SendData v])
  \/ trace (sendDataToBot w data) = [ConsoleWarn "Telegram WebApp not available."].
Proof.
  destruct (optional_WebApp w) as [tg|] eqn:Htg.
  - rewrite (sendDataToBot_present w tg data Htg).
    destruct (JSON_stringify data) as [json|e]; [|left; reflexivity].
    unfold call_sendData. destruct (sendData tg);
      [right; left; eexists; reflexivity | left; reflexivity].
  - rewrite (sendDataToBot_absent w data Htg). right; right. reflexivity.
Qed.

End BridgeFacts.

(** C5, as stated, fails: handed a BigInt, with the bridge present and
    all its methods working, [sendDataToBot] makes no call of [sendData]
    at all, because [JSON.stringify] throws. *)
Lemma bigint_payload_not_relayed :
  ~ (forall w tg send data,
       JS.optional_WebApp w = Some tg -> JS.sendData tg = Some send ->
       exists s, JS.trace (TelegramUtils.sendDataToBot w data) = [JS.SendData (JS.JString s)]).
Proof.
  intro H.
  destruct (H (Hosts.inside_telegram Hosts.full_bridge) Hosts.full_bridge
              (fun _ => JS.Normal tt) (JS.JBigInt 10) eq_refl eq_refl) as [s Hs].
  discriminate Hs.
Qed.

(** And handed [undefined], it passes [undefined], which is no string. *)
Example undefined_payload_relayed_raw :
  TelegramUtils.sendDataToBot (Hosts.inside_telegram Hosts.full_bridge) JS.JUndefined
  = ([JS.SendData JS.JUndefined], JS.Normal tt).
Proof. reflexivity. Qed.

Example order_relayed_as_json :
  TelegramUtils.sendDataToBot (Hosts.inside_telegram Hosts.full_bridge) Hosts.order
  = ([JS.SendData (JS.JString Hosts.order_json)], JS.Normal tt).
Proof. reflexivity. Qed.

(** C5, amended.  The utility module wraps exactly two bridge operations,
    [expand()] and [sendData()]: neither function calls any other bridge
    method.  With the bridge object present and [sendData] a method of it,
    [initTelegramWebApp] calls the object's [expand()], when that is a
    method, and returns that object; and for every value [data] on
    which [JSON.stringify(data)] returns, [sendDataToBot(data)] calls
    [sendData] exactly once, with what [JSON.stringify(data)] returned: a
    JSON string when it returned one, and undefined when it returned
    undefined, as it does for [data] undefined, a function or a symbol.
    When [JSON.stringify(data)] throws, as it does for a BigInt, [sendData]
    is not called. *)
Theorem bridge_wrappers
        (w : JS.Window) (tg : JS.WebApp) (send : JS.value -> JS.completion unit)
        (data : JS.value)
        (Htg : JS.optional_WebApp w = Some tg)
        (Hsend : JS.sendData tg = Some send) :
  JS.outcome (TelegramUtils.initTelegramWebApp w) = JS.Normal (TelegramUtils.HObject tg)
  /\ (forall r, JS.expand tg = Some r ->
        JS.trace (TelegramUtils.initTelegramWebApp w) = [JS.Expand])
  /\ (JS.expand tg = None -> JS.trace (TelegramUtils.initTelegramWebApp w) = [])
  /\ (forall json, JS.JSON_stringify data = JS.Normal json ->
        TelegramUtils.sendDataToBot w data
        = ([JS.SendData (JS.of_result json)], send (JS.of_result json))
        /\ List.length (filter JS.is_sendData
                          (JS.trace (TelegramUtils.sendDataToBot w data))) = 1)
  /\ (forall s, JS.JSON_stringify data = JS.Normal (Some s) ->
        JS.trace (TelegramUtils.sendDataToBot w data) = [JS.SendData (JS.JString s)])
  /\ (JS.JSON_stringify data = JS.Normal None ->
        JS.trace (TelegramUtils.sendDataToBot w data) = [JS.SendData JS.JUndefined])
  /\ (data = JS.JUndefined \/ (exists name f, data = JS.JFunction name f)
                            \/ (exists d, data = JS.JSymbol d) ->
        JS.JSON_stringify data = JS.Normal None)
  /\ (forall e, JS.JSON_stringify data = JS.Throw e ->
        TelegramUtils.sendDataToBot w data = ([], JS.Throw e))
  /\ (forall z, data = JS.JBigInt z ->
        TelegramUtils.sendDataToBot w data
        = ([], JS.Throw (JS.TypeError "Do not know how to serialize a BigInt")))
  /\ (forall w',
        forallb (fun e => match e with JS.Expand => true | _ => false end)
                (JS.trace (TelegramUtils.initTelegramWebApp w')) = true)
  /\ (forall w' data',
        forallb (fun e => match e with
                          | JS.SendData _ | JS.ConsoleWarn _ => true
                          | _ => false
                          end)
                (JS.trace (TelegramUtils.sendDataToBot w' data')) = true).
Proof.
  assert (Hrelay : forall json, JS.JSON_stringify data = JS.Normal json ->
            TelegramUtils.sendDataToBot w data
            = ([JS.SendData (JS.of_result json)], send (JS.of_result json))).
  { intros json Hjson. rewrite (sendDataToBot_present w tg data Htg), Hjson.
    unfold TelegramUtils.call_sendData. now rewrite Hsend. }
  assert (Hthrow : forall e, JS.JSON_stringify data = JS.Throw e ->
            TelegramUtils.sendDataToBot w data = ([], JS.Throw e)).
  { intros e He. now rewrite (sendDataToBot_present w tg data Htg), He. }
  pose proof (initTelegramWebApp_sender w tg send Htg Hsend) as Hinit.
  split. { rewrite Hinit. reflexivity. }
  split. { intros r Hr. rewrite Hinit, Hr. reflexivity. }
  split. { intro Hr. rewrite Hinit, Hr. reflexivity. }
  split. { intros json H. rewrite (Hrelay json H). split; reflexivity. }
  split. { intros s Hs. rewrite (Hrelay (Some s) Hs). reflexivity. }
  split. { intro Hnone. rewrite (Hrelay None Hnone). reflexivity. }
  split. { apply stringify_undefined. }
  split. { exact Hthrow. }
  split. { intros z ->. apply Hthrow. reflexivity. }
  split.
  - intro w'. destruct (initTelegramWebApp_trace w') as [E|E]; rewrite E; reflexivity.
  - intros w' data'.
    destruct (sendDataToBot_trace w' data') as [E|[[v E]|E]]; rewrite E; reflexivity.
Qed.

Lemma bridge_wrappers_witness :
  JS.optional_WebApp (Hosts.inside_telegram Hosts.full_bridge) = Some Hosts.full_bridge
  /\ JS.outcome (TelegramUtils.initTelegramWebApp (Hosts.inside_telegram Hosts.full_bridge))
     = JS.Normal (TelegramUtils.HObject Hosts.full_bridge)
  /\ JS.trace (TelegramUtils.initTelegramWebApp (Hosts.inside_telegram Hosts.full_bridge))
     = [JS.Expand]
  /\ JS.trace (TelegramUtils.sendDataToBot (Hosts.inside_telegram Hosts.full_bridge)
                                           Hosts.order)
     = [JS.SendData (JS.JString Hosts.order_json)].
Proof.
  destruct (bridge_wrappers (Hosts.inside_telegram Hosts.full_bridge) Hosts.full_bridge
              (fun _ => JS.Normal tt) Hosts.order eq_refl eq_refl)
    as (Hout & Hexp & _ & _ & Hjson & _).
  split; [reflexivity|].
  split; [exact Hout|].
  split; [exact (Hexp (JS.Normal tt) eq_refl) | exact (Hjson Hosts.order_json eq_refl)].
Defined.

(** C9, as stated, fails: [sendDataToBot] has no handler, and with the
    bridge present the TypeError of [JSON.stringify] on a BigInt reaches
    the caller. *)
Lemma sendDataToBot_can_throw :
  ~ (forall w data, exists u, JS.outcome (TelegramUtils.sendDataToBot w data) = JS.Normal u).
Proof.
  intro H.
  destruct (H (Hosts.inside_telegram Hosts.full_bridge) (JS.JBigInt 10)) as [u Hu].
  discriminate Hu.
Qed.

(** So does what the bridge's own [sendData] throws. *)
Example sendData_refusal_propagates :
  TelegramUtils.sendDataToBot (Hosts.inside_telegram Hosts.refusing_sendData) Hosts.order
  = ([JS.SendData (JS.JString Hosts.order_json)],
     JS.Throw (JS.HostError "WebAppDataInvalid")).
Proof. reflexivity. Qed.

(** C9, amended.  [initTelegramWebApp] never throws: without
    [window.Telegram] it returns null, and an exception thrown by the
    bridge's [expand()] is caught, the bridge object being returned all the
    same.  [sendDataToBot] returns, after a console warning and without
    calling [sendData], when the bridge is absent; with the bridge present
    it ends the way [JSON.stringify] and then [sendData] end, so that what
    either throws reaches the caller. *)
Theorem bridge_utils_failures (w : JS.Window) (data : JS.value) :
  (exists h, JS.outcome (TelegramUtils.initTelegramWebApp w) = JS.Normal h)
  /\ (JS.Telegram w = None ->
        TelegramUtils.initTelegramWebApp w = ([], JS.Normal TelegramUtils.HNull))
  /\ (JS.optional_WebApp w = None ->
        TelegramUtils.sendDataToBot w data
        = ([JS.ConsoleWarn "Telegram WebApp not available."], JS.Normal tt))
  /\ (forall ns tg e,
        JS.Telegram w = Some ns -> JS.WebApp_of ns = Some tg ->
        JS.expand tg = Some (JS.Throw e) ->
        TelegramUtils.initTelegramWebApp w
        = ([JS.Expand], JS.Normal (TelegramUtils.HObject tg)))
  /\ (forall tg,
        JS.optional_WebApp w = Some tg ->
        JS.outcome (TelegramUtils.sendDataToBot w data)
        = match JS.JSON_stringify data with
          | JS.Throw e => JS.Throw e
          | JS.Normal json =>
              match JS.sendData tg with
              | Some send => send (JS.of_result json)
              | None => JS.Throw (JS.TypeError "tg.sendData is not a function")
              end
          end).
Proof.
  split; [|split; [|split; [|split]]].
  - destruct (JS.Telegram w) as [ns|] eqn:Hns.
    + rewrite (initTelegramWebApp_present w ns Hns). eexists. reflexivity.
    + unfold TelegramUtils.initTelegramWebApp. rewrite Hns. eexists. reflexivity.
  - intro Hns. unfold TelegramUtils.initTelegramWebApp. now rewrite Hns.
  - apply sendDataToBot_absent.
  - intros ns tg e Hns Htg He.
    exact (initTelegramWebApp_bridge w ns tg (JS.Throw e) Hns Htg He).
  - intros tg Htg. rewrite (sendDataToBot_present w tg data Htg).
    destruct (JS.JSON_stringify data) as [json|e]; [|reflexivity].
    unfold TelegramUtils.call_sendData. destruct (JS.sendData tg); reflexivity.
Qed.

(** ** Runs on sample inputs *)

Section Runs.
Import CheckFiles.

(** A checkout where everything is in place. *)
Example check_files_complete :
  check_files (fun _ => Some Regular)
  = {| stdout := ["✔ All expected files are present."]; exit_status := 0 |}.
Proof. reflexivity. Qed.

(** A fresh clone: [backend/.env] is not there, and [db/schema.sql] is a
    directory. *)
Example check_files_fresh_clone :
  check_files (fun f => if String.eqb f "backend/.env" then None
                        else if String.eqb f "db/schema.sql" then Some Directory
                        else Some Regular)
  = {| stdout := ["✖ Missing files:"; " - db/schema.sql"; " - backend/.env"];
       exit_status := 2 |}.
Proof. reflexivity. Qed.

(** Mounting the App inside Telegram keeps the bridge in the state; in a
    plain browser the state stays null. *)
Example mount_inside_telegram :
  App.mount_effect (Hosts.inside_telegram Hosts.full_bridge)
  = ([JS.Expand; JS.Ready], JS.Normal (Some Hosts.full_bridge)).
Proof. reflexivity. Qed.

Example mount_in_browser :
  App.mount_effect Hosts.plain_browser = ([], JS.Normal None).
Proof. reflexivity. Qed.

(** With [window.Telegram.WebApp] null, [initTelegramWebApp] returns null
    and calls nothing, and [sendDataToBot] only warns. *)
Example init_with_null_bridge :
  TelegramUtils.initTelegramWebApp Hosts.null_bridge
  = ([], JS.Normal TelegramUtils.HNull).
Proof. reflexivity. Qed.

Example send_with_null_bridge :
  TelegramUtils.sendDataToBot Hosts.null_bridge Hosts.order
  = ([JS.ConsoleWarn "Telegram WebApp not available."], JS.Normal tt).
Proof. reflexivity. Qed.

(** [JSON.stringify] uses a [toJSON] method, writes a symbol in an array
    as null, and gives undefined for a symbol alone. *)
Example stringify_with_toJSON :
  JS.JSON_stringify Hosts.labelled
  = JS.Normal (Some ("[" ++ JS.dquote ++ "k" ++ JS.dquote ++ ",null]")).
Proof. reflexivity. Qed.

Example symbol_payload_relayed_as_undefined :
  TelegramUtils.sendDataToBot (Hosts.inside_telegram Hosts.full_bridge) (JS.JSymbol "s")
  = ([JS.SendData JS.JUndefined], JS.Normal tt).
Proof. reflexivity. Qed.

End Runs.

(* ===================================================================== *)
(** * Further properties *)
(* ===================================================================== *)

(** ** check_files.sh: what the run depends on, and acting on its output *)

Section RepairFacts.
Import CheckFiles Repair.

Lemma absent_ext (fs1 fs2 : filesystem) :
  (forall f, In f required -> test_f fs1 f = test_f fs2 f) ->
  absent fs1 = absent fs2.
Proof.
  intro H. unfold absent. apply filter_ext_in. intros f Hf. now rewrite (H f Hf).
Qed.

Lemma check_files_absent (fs : filesystem) :
  check_files fs
  = if Nat.eqb (List.length (absent fs)) 0
    then {| stdout := [msg_present]; exit_status := 0 |}
    else {| stdout := msg_missing :: map (fun m => " - " ++ m) (absent fs);
            exit_status := 2 |}.
Proof. unfold check_files. now rewrite collect_missing_absent. Qed.

Lemma substring_whole (s : string) : substring 0 (String.length s) s = s.
Proof. induction s as [|c s IH]; simpl; [reflexivity | now rewrite IH]. Qed.

Lemma strip_line (m : string) : strip (" - " ++ m) = m.
Proof.
  unfold strip. cbn [append String.length Nat.sub substring].
  rewrite Nat.sub_0_r. apply substring_whole.
Qed.

Lemma reported_absent (fs : filesystem) : reported (check_files fs) = absent fs.
Proof.
  rewrite check_files_absent. unfold reported.
  destruct (absent fs) as [|m ms] eqn:E; [reflexivity|].
  cbn [List.length Nat.eqb stdout]. rewrite map_map.
  rewrite <- (map_id (m :: ms)) at 2. apply map_ext. intro a. apply strip_line.
Qed.

Lemma touch_listed (paths : list string) (fs : filesystem) (f : string) :
  In f paths -> touch paths fs f = Some Regular.
Proof.
  intro H. unfold touch.
  assert (E : existsb (String.eqb f) paths = true)
    by (apply existsb_exists; exists f; split; [exact H | apply String.eqb_refl]).
  now rewrite E.
Qed.

Lemma touch_other (paths : list string) (fs : filesystem) (f : string) :
  ~ In f paths -> touch paths fs f = fs f.
Proof.
  intro H. unfold touch.
  destruct (existsb (String.eqb f) paths) eqn:E; [|reflexivity].
  apply existsb_exists in E. destruct E as [g [Hg Heq]].
  apply String.eqb_eq in Heq. subst g. contradiction.
Qed.

Lemma touch_absent_complete (fs : filesystem) :
  absent (touch (absent fs) fs) = [].
Proof.
  apply absent_nil_iff. intros f Hf.
  destruct (test_f fs f) eqn:E.
  - assert (Hn : ~ In f (absent fs)).
    { unfold absent. intro Hin. apply filter_In in Hin. destruct Hin as [_ Hin].
      rewrite E in Hin. discriminate Hin. }
    rewrite (touch_other _ _ _ Hn). now apply test_f_regular.
  - apply touch_listed. unfold absent. apply filter_In. split; [exact Hf|].
    now rewrite E.
Qed.

End RepairFacts.

(** X1.  The run of the script is decided by the sixteen required paths
    alone: two filesystems that agree, path by path of the list, on
    whether the path is a regular file give the same output and the same
    exit status, whatever else they hold. *)
Theorem check_files_reads_required_only
        (fs1 fs2 : CheckFiles.filesystem)
        (Hagree : forall f, In f CheckFiles.required ->
                            CheckFiles.test_f fs1 f = CheckFiles.test_f fs2 f) :
  CheckFiles.check_files fs1 = CheckFiles.check_files fs2.
Proof.
  rewrite !check_files_absent. now rewrite (absent_ext fs1 fs2 Hagree).
Qed.

Lemma check_files_reads_required_only_witness :
  CheckFiles.check_files (fun _ => Some CheckFiles.Regular)
  = CheckFiles.check_files
      (fun f => if String.eqb f "README.md" then None
                else if String.eqb f "backend" then Some CheckFiles.Directory
                else Some CheckFiles.Regular).
Proof.
  apply check_files_reads_required_only.
  intros f Hf. unfold CheckFiles.required in Hf.
  repeat (destruct Hf as [<-|Hf]; [reflexivity|]). destruct Hf.
Defined.

(** X2.  The output can be acted on: the lines below the heading, without
    their " - ", are exactly the required paths that are not regular
    files; once each of them has been created as a regular file, all other
    paths left as they were, the script exits with status 0. *)
Theorem check_files_repair (fs : CheckFiles.filesystem) :
  Repair.reported (CheckFiles.check_files fs)
  = filter (fun f => negb (CheckFiles.test_f fs f)) CheckFiles.required
  /\ (forall f, ~ In f (Repair.reported (CheckFiles.check_files fs)) ->
                Repair.touch (Repair.reported (CheckFiles.check_files fs)) fs f = fs f)
  /\ CheckFiles.check_files
       (Repair.touch (Repair.reported (CheckFiles.check_files fs)) fs)
     = {| CheckFiles.stdout := [CheckFiles.msg_present]; CheckFiles.exit_status := 0 |}.
Proof.
  rewrite reported_absent. split; [reflexivity|]. split.
  - intros f Hf. now apply touch_other.
  - rewrite check_files_absent, touch_absent_complete. reflexivity.
Qed.

(** ** db/schema.sql: what an INSERT refuses and what it keeps *)

Section InsertFacts.
Import Schema Relational Invariants.

Lemma find_table_schema (t : table) :
  In t schema -> find_table schema (tbl_name t) = Some t.
Proof.
  intro H. simpl in H.
  repeat (destruct H as [<-|H]; [reflexivity|]). destruct H.
Qed.

Lemma find_table_sound (tbl : string) (t : table) :
  find_table schema tbl = Some t -> In t schema /\ tbl_name t = tbl.
Proof.
  intro H. apply find_some in H. destruct H as [Hin Hname].
  split; [exact Hin | now apply String.eqb_eq].
Qed.

(** What a successful INSERT has checked, and what it stores. *)
Lemma insert_accepts (db db' : database) (tbl : string) (r : row) :
  insert db tbl r = Some db' ->
  exists t, find_table schema tbl = Some t
            /\ row_admitted t r = true
            /\ keys_free t (db tbl) r = true
            /\ references_resolve db t r = true
            /\ db' = set_table db tbl (db tbl ++ [r])%list.
Proof.
  unfold insert. destruct (find_table schema tbl) as [t|]; [|discriminate].
  destruct (row_admitted t r) eqn:Ha; [|discriminate].
  destruct (keys_free t (db tbl) r) eqn:Hk; [|discriminate].
  destruct (references_resolve db t r) eqn:Hr; [|discriminate].
  cbn [andb]. intro H. inversion H. exists t. repeat split; assumption.
Qed.

Lemma insert_rows (db : database) (tbl : string) (r : row) (name : string) :
  set_table db tbl (db tbl ++ [r])%list name
  = if String.eqb name tbl then (db tbl ++ [r])%list else db name.
Proof. reflexivity. Qed.

Lemma insert_grows (db : database) (tbl : string) (r x : row) (name : string) :
  In x (db name) -> In x (set_table db tbl (db tbl ++ [r])%list name).
Proof.
  intro H. rewrite insert_rows. destruct (String.eqb_spec name tbl) as [->|_];
    [apply in_or_app; now left | exact H].
Qed.

(** A NULL in a column declared NOT NULL or PRIMARY KEY is refused. *)
Lemma insert_null_refused (db : database) (tbl col : string) (t : table)
      (c : column) (r : row) :
  find_table schema tbl = Some t ->
  find_column t col = Some c ->
  existsb (fun k => is_not_null k || is_primary_key k) (col_constraints c) = true ->
  field r col = Vnull ->
  insert db tbl r = None.
Proof.
  intros Ht Hc Hk Hnull. unfold insert. rewrite Ht.
  assert (Hrow : row_admitted t r = false).
  { destruct (row_admitted t r) eqn:E; [exfalso | reflexivity].
    unfold row_admitted in E. apply andb_prop in E. destruct E as [E _].
    apply find_some in Hc. destruct Hc as [Hin Hname].
    apply String.eqb_eq in Hname.
    pose proof (proj1 (forallb_forall _ _) E c Hin) as Hadm.
    cbv beta in Hadm. rewrite Hname, Hnull in Hadm. unfold column_admits in Hadm.
    apply andb_prop in Hadm. destruct Hadm as [_ Hadm].
    apply existsb_exists in Hk. destruct Hk as [k [Hkin Hkind]].
    pose proof (proj1 (forallb_forall _ _) Hadm k Hkin) as Hone.
    destruct k; simpl in Hkind; try discriminate Hkind; discriminate Hone. }
  now rewrite Hrow.
Qed.

Lemma same_on_sym (cols : list string) (a b : row) :
  same_on cols a b = true -> same_on cols b a = true.
Proof.
  unfold same_on. intro H. apply forallb_forall. intros c Hc.
  pose proof (proj1 (forallb_forall _ _) H c Hc) as Hone.
  apply andb_prop in Hone. destruct Hone as [Hnn Heq].
  apply value_eqb_eq in Heq. rewrite <- Heq, Hnn. apply value_eqb_refl.
Qed.

Lemma keys_distinct_snoc (cols : list string) (rows : list row) (r : row) :
  keys_distinct cols rows = true ->
  existsb (same_on cols r) rows = false ->
  keys_distinct cols (rows ++ [r]) = true.
Proof.
  induction rows as [|x rest IH]; intros Hd Hr; [reflexivity|].
  cbn [keys_distinct] in Hd. apply andb_prop in Hd. destruct Hd as [Hx Hrest].
  cbn [existsb] in Hr. apply orb_false_elim in Hr. destruct Hr as [Hrx Hr].
  cbn [app keys_distinct]. rewrite (IH Hrest Hr), andb_true_r.
  rewrite existsb_app. cbn [existsb]. rewrite orb_false_r.
  apply negb_true_iff in Hx. rewrite Hx. cbn [orb].
  destruct (same_on cols x r) eqn:E; [|reflexivity].
  apply same_on_sym in E. rewrite E in Hrx. discriminate Hrx.
Qed.

Lemma refers_mono (fk : fkey) (parents parents' : list row) (r : row) :
  (forall p, In p parents -> In p parents') ->
  refers fk parents r = true -> refers fk parents' r = true.
Proof.
  intros Hsub H. unfold refers in *. apply andb_prop in H. destruct H as [Hn He].
  rewrite Hn. cbn [andb]. apply existsb_exists in He. destruct He as [p [Hp Heq]].
  apply existsb_exists. exists p. split; [now apply Hsub | exact Heq].
Qed.

(** X4.  An INSERT keeps the keys of the schema: in a database where no
    two rows of a table collide on a primary key or on a UNIQUE
    constraint (users on (tenant_id, tg_user_id), chats on (tenant_id,
    tg_chat_id)), the same holds after every INSERT that is accepted. *)
Theorem insert_keeps_keys (db db' : database) (tbl : string) (r : row) :
  keys_ok db = true -> insert db tbl r = Some db' -> keys_ok db' = true.
Proof.
  intros Hok Hins. apply insert_accepts in Hins.
  destruct Hins as (t0 & Hfind & _ & Hfree & _ & ->).
  apply find_table_sound in Hfind. destruct Hfind as [Hin0 Hname0].
  unfold keys_ok in *. apply forallb_forall. intros t Ht.
  apply forallb_forall. intros cols Hcols.
  pose proof (proj1 (forallb_forall _ _)
                (proj1 (forallb_forall _ _) Hok t Ht) cols Hcols) as Hold.
  rewrite insert_rows. destruct (String.eqb_spec (tbl_name t) tbl) as [Heq|_];
    [|exact Hold].
  assert (Hsame : t = t0).
  { pose proof (find_table_schema t Ht) as H1.
    pose proof (find_table_schema t0 Hin0) as H2.
    rewrite Heq in H1. rewrite Hname0 in H2. rewrite H1 in H2. now inversion H2. }
  subst t0. rewrite <- Heq. apply keys_distinct_snoc; [exact Hold|].
  unfold keys_free in Hfree. rewrite <- Heq in Hfree.
  pose proof (proj1 (forallb_forall _ _) Hfree cols Hcols) as Hone.
  now apply negb_true_iff in Hone.
Qed.

(** X5.  An INSERT keeps referential integrity: in a database where
    every non-NULL reference (tenant_id, chat_id, invite_link_id) has its
    target row, the same holds after every INSERT that is accepted. *)
Theorem insert_keeps_references (db db' : database) (tbl : string) (r : row) :
  referential_integrity (foreign_keys schema) db = true ->
  insert db tbl r = Some db' ->
  referential_integrity (foreign_keys schema) db' = true.
Proof.
  intros Hok Hins. apply insert_accepts in Hins.
  destruct Hins as (t0 & Hfind & _ & _ & Hres & ->).
  apply find_table_sound in Hfind. destruct Hfind as [_ Hname0].
  unfold referential_integrity in *. apply forallb_forall. intros fk Hfk.
  pose proof (proj1 (forallb_forall _ _) Hok fk Hfk) as Hold.
  unfold fkey_holds in *. apply forallb_forall. intros x Hx.
  assert (Hstep : is_null (field x (fk_col fk))
                  || refers fk (db (fk_ref_table fk)) x = true).
  { rewrite insert_rows in Hx.
    destruct (String.eqb_spec (fk_table fk) tbl) as [Heq|_];
      [|exact (proj1 (forallb_forall _ _) Hold x Hx)].
    apply in_app_or in Hx. destruct Hx as [Hx|[<-|[]]].
    - rewrite <- Heq in Hx. exact (proj1 (forallb_forall _ _) Hold x Hx).
    - unfold references_resolve in Hres.
      pose proof (proj1 (forallb_forall _ _) Hres fk Hfk) as Hone.
      rewrite Hname0, Heq, String.eqb_refl in Hone. cbn [negb orb] in Hone.
      exact Hone. }
  apply orb_true_iff in Hstep. apply orb_true_iff.
  destruct Hstep as [Hn|Hr]; [now left | right].
  apply refers_mono with (parents := db (fk_ref_table fk)); [|exact Hr].
  intros p Hp. now apply insert_grows.
Qed.

(** X3.  A row with NULL in a column that the script declares NOT NULL
    (tenants.name, tenants.owner_user_id, users.tg_user_id,
    chats.tg_chat_id, invite_links.invite_link) or PRIMARY KEY (the id of
    each table) is refused by INSERT, whatever the database holds. *)
Theorem insert_refuses_null (db : database) (tbl col : string) (r : row)
        (Hdecl : In (tbl, col) (not_nulls schema ++ primary_keys schema))
        (Hnull : field r col = Vnull) :
  insert db tbl r = None.
Proof.
  vm_compute in Hdecl.
  repeat (destruct Hdecl as [Heq|Hdecl];
          [injection Heq as <- <-;
           eapply insert_null_refused; [ | | | exact Hnull]; reflexivity|]).
  destruct Hdecl.
Qed.

End InsertFacts.

Lemma insert_refuses_null_witness :
  Relational.insert Fixtures.two_tenants "users"
    [("id", Schema.Vuuid 13); ("tenant_id", Schema.Vuuid 1)]
  = None.
Proof.
  assert (Hdecl : In ("users", "tg_user_id")
                     (Schema.not_nulls Schema.schema
                      ++ Schema.primary_keys Schema.schema)%list)
    by (vm_compute; tauto).
  exact (insert_refuses_null Fixtures.two_tenants "users" "tg_user_id"
           [("id", Schema.Vuuid 13); ("tenant_id", Schema.Vuuid 1)] Hdecl eq_refl).
Defined.

Lemma insert_keeps_keys_witness :
  Invariants.keys_ok Fixtures.two_tenants = true
  /\ match Relational.insert Fixtures.two_tenants "users" (Fixtures.user_row 13 1 5003) with
     | Some db' => Invariants.keys_ok db'
     | None => false
     end = true.
Proof.
  assert (Hok : Invariants.keys_ok Fixtures.two_tenants = true)
    by (vm_compute; reflexivity).
  split; [exact Hok|].
  destruct (Relational.insert Fixtures.two_tenants "users" (Fixtures.user_row 13 1 5003))
    as [db'|] eqn:Hins.
  - exact (insert_keeps_keys Fixtures.two_tenants db' "users"
             (Fixtures.user_row 13 1 5003) Hok Hins).
  - vm_compute in Hins. discriminate Hins.
Defined.

Lemma insert_keeps_references_witness :
  Relational.referential_integrity (Relational.foreign_keys Schema.schema)
                                   Fixtures.two_tenants = true
  /\ match Relational.insert Fixtures.two_tenants "join_events"
             (Fixtures.join_row 43 2 22 31 5003) with
     | Some db' => Relational.referential_integrity
                     (Relational.foreign_keys Schema.schema) db'
     | None => false
     end = true.
Proof.
  assert (Hok : Relational.referential_integrity (Relational.foreign_keys Schema.schema)
                                                 Fixtures.two_tenants = true)
    by (vm_compute; reflexivity).
  split; [exact Hok|].
  destruct (Relational.insert Fixtures.two_tenants "join_events"
              (Fixtures.join_row 43 2 22 31 5003)) as [db'|] eqn:Hins.
  - exact (insert_keeps_references Fixtures.two_tenants db' "join_events"
             (Fixtures.join_row 43 2 22 31 5003) Hok Hins).
  - vm_compute in Hins. discriminate Hins.
Defined.

(** ** db/schema.sql: what deleting a tenant touches *)

Section CascadeReach.
Import Schema Relational Invariants.

Variable fks : list fkey.

Lemma filter_none (doomed : row -> bool) (rows : list row) :
  (forall r, In r rows -> doomed r = false) ->
  filter doomed rows = [] /\ filter (fun r => negb (doomed r)) rows = rows.
Proof.
  induction rows as [|x rows IH]; intro H; [split; reflexivity|].
  cbn [filter]. rewrite (H x (or_introl eq_refl)). cbn [negb].
  destruct IH as [IH1 IH2]; [intros r Hr; apply H; now right|].
  now rewrite IH1, IH2.
Qed.

Lemma refers_nothing (fk : fkey) (r : row) : refers fk [] r = false.
Proof. unfold refers. cbn [existsb]. apply andb_false_r. Qed.

(** A DELETE whose WHERE clause selects no row changes no table. *)
Lemma delete_where_nothing (fuel : nat) :
  forall db tbl doomed,
    (forall r, In r (db tbl) -> doomed r = false) ->
    forall tbl', delete_where fuel fks db tbl doomed tbl' = db tbl'.
Proof.
  induction fuel as [|fuel IH]; intros db tbl doomed Hnone tbl'; [reflexivity|].
  rewrite delete_where_step.
  destruct (filter_none doomed (db tbl) Hnone) as [Hgone Hkept].
  rewrite Hgone, Hkept. rewrite fold_pointwise.
  - unfold set_table. destruct (String.eqb_spec tbl' tbl) as [->|_]; reflexivity.
  - intros d fk _.
    destruct (String.eqb (fk_ref_table fk) tbl && is_cascade (fk_action fk));
      [|reflexivity].
    apply IH. intros r _. apply refers_nothing.
Qed.

Section OnlyChild.

Variables root tbl' : string.
Hypothesis Hchild : only_child_of root tbl' fks = true.
Hypothesis Hroot : tbl' <> root.

Lemma no_key_from_root (fk : fkey) : In fk fks -> fk_table fk <> root.
Proof.
  intros Hin Heq.
  pose proof (proj1 (forallb_forall _ _) Hchild fk Hin) as H.
  apply andb_prop in H. destruct H as [H _].
  rewrite Heq, String.eqb_refl in H. discriminate H.
Qed.

Lemma key_into_child (fk : fkey) :
  In fk fks -> fk_table fk = tbl' -> fk_action fk = Cascade -> fk_ref_table fk = root.
Proof.
  intros Hin Htbl Hact.
  pose proof (proj1 (forallb_forall _ _) Hchild fk Hin) as H.
  apply andb_prop in H. destruct H as [_ H].
  rewrite Htbl, String.eqb_refl, Hact in H. cbn [is_cascade andb negb orb] in H.
  now apply String.eqb_eq.
Qed.

(** Deleting from a table other than [root] leaves [tbl'] alone. *)
Lemma delete_elsewhere (fuel : nat) :
  forall db tbl doomed,
    tbl <> root -> tbl <> tbl' ->
    delete_where fuel fks db tbl doomed tbl' = db tbl'.
Proof.
  induction fuel as [|fuel IH]; intros db tbl doomed Hr Ht; [reflexivity|].
  rewrite delete_where_step. rewrite fold_pointwise.
  - apply set_table_other. congruence.
  - intros d fk Hin.
    destruct (String.eqb_spec (fk_ref_table fk) tbl) as [Href|_]; [|reflexivity].
    destruct (fk_action fk) eqn:Hact; [reflexivity|]. cbn [is_cascade andb].
    apply IH; [now apply no_key_from_root|].
    intro Heq. apply Hr. rewrite <- Href. now apply key_into_child.
Qed.

(** Deleting from [tbl'] itself takes out the selected rows and no
    other. *)
Lemma delete_in_child (fuel : nat) (db : database) (doomed : row -> bool) :
  delete_where (S fuel) fks db tbl' doomed tbl'
  = filter (fun r => negb (doomed r)) (db tbl').
Proof.
  rewrite delete_where_step. rewrite fold_pointwise.
  - apply set_table_same.
  - intros d fk Hin.
    destruct (String.eqb_spec (fk_ref_table fk) tbl') as [Href|_]; [|reflexivity].
    destruct (fk_action fk) eqn:Hact; [reflexivity|]. cbn [is_cascade andb].
    apply delete_elsewhere; [now apply no_key_from_root|].
    intro Heq. apply Hroot. rewrite <- Href. now apply key_into_child.
Qed.

Lemma sieve_fold (fuel : nat) (gone : list row) (l : list fkey) :
  (forall fk, In fk l -> In fk fks) ->
  forall d,
    fold_left
      (fun d fk =>
         if String.eqb (fk_ref_table fk) root && is_cascade (fk_action fk)
         then delete_where (S fuel) fks d (fk_table fk) (refers fk gone)
         else d)
      l d tbl'
    = sieve root tbl' gone l (d tbl').
Proof.
  unfold sieve. induction l as [|fk l IH]; intros Hl d; [reflexivity|].
  cbn [fold_left]. rewrite IH by (intros k Hk; apply Hl; now right). f_equal.
  unfold fires_into.
  destruct (String.eqb (fk_ref_table fk) root && is_cascade (fk_action fk));
    [|reflexivity].
  cbn [andb]. destruct (String.eqb_spec (fk_table fk) tbl') as [Heq|Hne].
  - rewrite Heq. apply delete_in_child.
  - apply delete_elsewhere; [apply no_key_from_root, Hl; now left | exact Hne].
Qed.

(** Deleting from [root] leaves of [tbl'] the rows that point at none of
    the deleted rows. *)
Lemma delete_in_root (fuel : nat) (db : database) (doomed : row -> bool) :
  delete_where (S (S fuel)) fks db root doomed tbl'
  = sieve root tbl' (filter doomed (db root)) fks (db tbl').
Proof.
  rewrite delete_where_step. rewrite sieve_fold by (intros fk Hfk; exact Hfk).
  now rewrite set_table_other.
Qed.

End OnlyChild.

Lemma cascade_unknown_tenant (fuel : nat) (db : database) (t : N) (tbl : string) :
  (forall r, In r (db "tenants") -> has_id t r = false) ->
  cascade_tenant_with fks fuel db t tbl = db tbl.
Proof. intro H. unfold cascade_tenant_with. now apply delete_where_nothing. Qed.

Lemma cascade_only_child (fuel : nat) (db : database) (t : N) (tbl : string) :
  only_child_of "tenants" tbl fks = true -> tbl <> "tenants" ->
  cascade_tenant_with fks (S (S fuel)) db t tbl
  = sieve "tenants" tbl (filter (has_id t) (db "tenants")) fks (db tbl).
Proof. intros Hc Hr. unfold cascade_tenant_with. now apply delete_in_root. Qed.

(** Among the rows of a table of tenants, the ones that point at a deleted
    tenant are the ones the tenant owns. *)
Lemma refers_deleted_tenant (db : database) (t : N) (tenant : row) (tbl : string) (r : row) :
  In tenant (db "tenants") -> has_id t tenant = true ->
  refers (tenant_key tbl) (filter (has_id t) (db "tenants")) r = owned_by t r.
Proof.
  intros Hrow Hid. destruct (owned_by t r) eqn:Hown.
  - unfold owned_by in Hown. apply value_eqb_uuid in Hown.
    unfold refers. cbn [tenant_key fk_col fk_ref_col]. rewrite Hown. cbn [is_null negb andb].
    apply existsb_exists. exists tenant. split; [|exact Hid].
    apply filter_In. split; assumption.
  - destruct (refers (tenant_key tbl) (filter (has_id t) (db "tenants")) r) eqn:Href;
      [|reflexivity].
    unfold refers in Href. cbn [tenant_key fk_col fk_ref_col] in Href.
    apply andb_prop in Href. destruct Href as [_ Hex].
    apply existsb_exists in Hex. destruct Hex as [p [Hp Heq]].
    apply filter_In in Hp. destruct Hp as [_ Hp]. unfold has_id in Hp.
    apply value_eqb_uuid in Hp. rewrite Hp in Heq.
    unfold owned_by in Hown. apply value_eqb_eq in Heq. rewrite <- Heq in Hown.
    cbn [value_eqb] in Hown. rewrite N.eqb_refl in Hown. discriminate Hown.
Qed.

End CascadeReach.

Section TenantReach.
Import Schema Relational Invariants.

Lemma tenant_only_children (tbl : string) :
  In tbl ["users"; "chats"; "subscriptions"; "payments"] ->
  only_child_of "tenants" tbl (foreign_keys schema) = true /\ tbl <> "tenants".
Proof.
  intro H. repeat (destruct H as [<-|H]; [split; [reflexivity | discriminate]|]).
  destruct H.
Qed.

Lemma sieve_tenant_key (tbl : string) (gone rows : list row) :
  In tbl ["users"; "chats"; "subscriptions"; "payments"] ->
  sieve "tenants" tbl gone (foreign_keys schema) rows
  = filter (fun r => negb (refers (tenant_key tbl) gone r)) rows.
Proof.
  intro H. repeat (destruct H as [<-|H]; [reflexivity|]). destruct H.
Qed.

Lemma chat_key_declared (tbl : string) :
  In tbl ["invite_links"; "join_events"] ->
  In (SharedChat.chat_key tbl) (foreign_keys schema).
Proof.
  intro H. repeat (destruct H as [<-|H]; [vm_compute; tauto|]). destruct H.
Qed.

Lemma chat_ids_distinct (db : database) :
  keys_ok db = true -> keys_distinct ["id"] (db "chats") = true.
Proof.
  intro H. unfold keys_ok in H.
  assert (Ht : In chats schema) by (vm_compute; tauto).
  pose proof (proj1 (forallb_forall _ _) H chats Ht) as Hc. cbv beta in Hc.
  assert (Hk : In ["id"] (key_columns chats)) by (vm_compute; tauto).
  exact (proj1 (forallb_forall _ _) Hc ["id"] Hk).
Qed.

(** In a database with referential integrity, the tenant of an owned chat
    is there. *)
Lemma owner_exists (db : database) (t : N) (c : row) :
  referential_integrity (foreign_keys schema) db = true ->
  In c (db "chats") -> owned_by t c = true ->
  exists tenant, In tenant (db "tenants") /\ has_id t tenant = true.
Proof.
  intros Hint Hc Hown. unfold referential_integrity in Hint.
  assert (Hk : In (tenant_key "chats") (foreign_keys schema)) by (vm_compute; tauto).
  pose proof (proj1 (forallb_forall _ _) Hint _ Hk) as Hfk.
  unfold fkey_holds, refers in Hfk.
  cbn [tenant_key fk_table fk_ref_table fk_col fk_ref_col] in Hfk.
  pose proof (proj1 (forallb_forall _ _) Hfk c Hc) as Hone. cbv beta in Hone.
  unfold owned_by in Hown. apply value_eqb_uuid in Hown.
  rewrite Hown in Hone. cbn [is_null negb orb andb] in Hone.
  apply existsb_exists in Hone. destruct Hone as [p [Hp Heq]].
  exists p. split; [exact Hp | exact Heq].
Qed.

(** X7.  Deleting a tenant id that no row of [tenants] carries changes no
    table: the cascade removes nothing, and if the statement goes through
    every table holds the rows it held. *)
Theorem delete_unknown_tenant (db : database) (t : N)
        (Hnone : forall r, In r (db "tenants") -> has_id t r = false) :
  (forall tbl, cascade_tenant db t tbl = db tbl)
  /\ (forall db', delete_tenant db t = Some db' -> forall tbl, db' tbl = db tbl).
Proof.
  rewrite cascade_tenant_eq, delete_tenant_eq. split.
  - intro tbl. now apply cascade_unknown_tenant.
  - intros db' Hdel tbl. apply delete_is_cascade in Hdel. subst db'.
    now apply cascade_unknown_tenant.
Qed.

(** X8.  A deletion of an existing tenant that goes through takes, from
    users, chats, subscriptions and payments, exactly the rows whose
    tenant_id is that tenant: the rows of every other tenant, and the rows
    without a tenant, stay, in their order. *)
Theorem tenant_delete_spares_others
        (db db' : database) (t : N) (tenant : row) (tbl : string)
        (Hrow : In tenant (db "tenants"))
        (Hid : has_id t tenant = true)
        (Htbl : In tbl ["users"; "chats"; "subscriptions"; "payments"])
        (Hdel : delete_tenant db t = Some db') :
  db' tbl = filter (fun r => negb (owned_by t r)) (db tbl).
Proof.
  rewrite delete_tenant_eq in Hdel. apply delete_is_cascade in Hdel. subst db'.
  destruct (tenant_only_children tbl Htbl) as [Hchild Hne].
  rewrite (cascade_only_child (foreign_keys schema) 6 db t tbl Hchild Hne).
  rewrite (sieve_tenant_key tbl _ _ Htbl).
  apply filter_ext. intro r.
  now rewrite (refers_deleted_tenant db t tenant tbl r Hrow Hid).
Qed.

(** X9.  In a database that has its keys and its references in order, a
    deletion of a tenant that goes through leaves no invite link and no
    join event attached to a chat the tenant owned, whatever tenant_id
    those rows carry themselves. *)
Theorem tenant_delete_takes_chat_rows
        (db db' : database) (t : N) (c : row) (tbl : string)
        (Hkeys : keys_ok db = true)
        (Hrefs : referential_integrity (foreign_keys schema) db = true)
        (Hchat : In c (db "chats"))
        (Hown : owned_by t c = true)
        (Hdel : delete_tenant db t = Some db')
        (Htbl : In tbl ["invite_links"; "join_events"]) :
  forall l, In l (db' tbl) ->
            field l "chat_id" = Vnull \/ field l "chat_id" <> field c "id".
Proof.
  intros l Hl.
  assert (Hmain : is_null (field l "chat_id") = false ->
                  field l "chat_id" = field c "id" -> False).
  { intros Hnn Heq.
    destruct (owner_exists db t c Hrefs Hchat Hown) as [tenant [Hrow Hid]].
    rewrite delete_tenant_eq in Hdel.
    pose proof (delete_with_integrity _ _ _ _ _ Hdel) as Hint.
    apply delete_is_cascade in Hdel. subst db'.
    destruct (reference_resolves (foreign_keys schema)
                (cascade_tenant_with (foreign_keys schema) 8 db t)
                tbl "chat_id" "chats" "id" Cascade l
                Hint (chat_key_declared tbl Htbl) Hl Hnn) as [p [Hp Hpid]].
    assert (Hpc : p = c).
    { apply (keys_distinct_unique ["id"] (db "chats")).
      - exact (chat_ids_distinct db Hkeys).
      - exact (cascade_only_removes _ _ _ _ _ _ Hp).
      - exact Hchat.
      - unfold same_on. cbn [forallb]. rewrite Hpid, Hnn, Heq. cbn [negb andb].
        rewrite andb_true_r. apply value_eqb_refl. }
    subst p.
    assert (Hkey : In (tenant_key "chats") (foreign_keys schema)) by (vm_compute; tauto).
    pose proof (cascade_removes_owned (foreign_keys schema) 6 db t tenant "chats" c
                  Hkey Hrow Hid Hp) as Hgone.
    rewrite Hgone in Hown. discriminate Hown. }
  destruct (field l "chat_id") eqn:Hv; [left; reflexivity | right; intro Heq ..];
    (apply Hmain; [reflexivity | exact Heq]).
Qed.

End TenantReach.

Lemma delete_unknown_tenant_witness :
  map (Relational.cascade_tenant Fixtures.two_tenants 3) Schema.table_names
  = map Fixtures.two_tenants Schema.table_names.
Proof.
  apply map_ext.
  assert (Hnone : forall r, In r (Fixtures.two_tenants "tenants") ->
                            Relational.has_id 3 r = false).
  { intros r Hr. vm_compute in Hr. destruct Hr as [<-|[<-|[]]]; reflexivity. }
  exact (proj1 (delete_unknown_tenant Fixtures.two_tenants 3 Hnone)).
Defined.

Lemma tenant_delete_spares_others_witness :
  match Relational.delete_tenant Fixtures.two_tenants 1 with
  | Some db' =>
      db' "users"
      = filter (fun r => negb (Relational.owned_by 1 r)) (Fixtures.two_tenants "users")
  | None => False
  end.
Proof.
  assert (Hrow : In (Fixtures.tenant_row 1 "acme" 1001) (Fixtures.two_tenants "tenants"))
    by (vm_compute; left; reflexivity).
  destruct (Relational.delete_tenant Fixtures.two_tenants 1) as [db'|] eqn:Hdel.
  - exact (tenant_delete_spares_others Fixtures.two_tenants db' 1
             (Fixtures.tenant_row 1 "acme" 1001) "users" Hrow eq_refl
             (or_introl eq_refl) Hdel).
  - vm_compute in Hdel. discriminate Hdel.
Defined.

(** Tenant 2's invite link 33 and join event 44 hang on tenant 1's chat
    21, and go with it. *)
Example shared_chat_rows_deleted :
  match Relational.delete_tenant SharedChat.db 1 with
  | Some db => (Fixtures.ids db "invite_links", Fixtures.ids db "join_events")
  | None => ([], [])
  end
  = ([Schema.Vuuid 32], [Schema.Vuuid 42]).
Proof. vm_compute. reflexivity. Qed.

Lemma tenant_delete_takes_chat_rows_witness :
  match Relational.delete_tenant SharedChat.db 1 with
  | Some db' =>
      forall l, In l (db' "invite_links") ->
                Relational.field l "chat_id" = Schema.Vnull
                \/ Relational.field l "chat_id"
                   <> Relational.field (Fixtures.chat_row 21 1 (-100201)) "id"
  | None => False
  end.
Proof.
  assert (Hkeys : Invariants.keys_ok SharedChat.db = true) by (vm_compute; reflexivity).
  assert (Hrefs : Relational.referential_integrity
                    (Relational.foreign_keys Schema.schema) SharedChat.db = true)
    by (vm_compute; reflexivity).
  assert (Hchat : In (Fixtures.chat_row 21 1 (-100201)) (SharedChat.db "chats"))
    by (vm_compute; left; reflexivity).
  destruct (Relational.delete_tenant SharedChat.db 1) as [db'|] eqn:Hdel.
  - exact (tenant_delete_takes_chat_rows SharedChat.db db' 1
             (Fixtures.chat_row 21 1 (-100201)) "invite_links"
             Hkeys Hrefs Hchat eq_refl Hdel (or_introl eq_refl)).
  - vm_compute in Hdel. discriminate Hdel.
Defined.

(** ** src/utils/telegram.js: what the helpers return and call *)

(** X10.  With [window.Telegram] there, [initTelegramWebApp] returns
    whatever [window.Telegram.WebApp] holds, a failure of [tg.expand()]
    being swallowed.  So it returns null exactly when [window.Telegram] is
    missing (or otherwise falsy) or its [WebApp] is null; undefined exactly when
    [window.Telegram] is there and its [WebApp] is undefined; and a bridge
    object exactly when [WebApp] holds that object.  Its only call on the
    host is [expand()], made at most once, and made exactly when [WebApp]
    holds an object that has that method. *)
Theorem initTelegramWebApp_result (w : JS.Window) :
  (forall ns, JS.Telegram w = Some ns ->
     JS.outcome (TelegramUtils.initTelegramWebApp w)
     = JS.Normal (TelegramUtils.handle_of (JS.WebApp_slot ns)))
  /\ (JS.outcome (TelegramUtils.initTelegramWebApp w) = JS.Normal TelegramUtils.HNull
      <-> JS.Telegram w = None
          \/ exists ns, JS.Telegram w = Some ns /\ JS.WebApp_slot ns = JS.SNull)
  /\ (JS.outcome (TelegramUtils.initTelegramWebApp w) = JS.Normal TelegramUtils.HUndefined
      <-> exists ns, JS.Telegram w = Some ns /\ JS.WebApp_slot ns = JS.SUndefined)
  /\ (forall tg,
        JS.outcome (TelegramUtils.initTelegramWebApp w)
        = JS.Normal (TelegramUtils.HObject tg)
        <-> exists ns, JS.Telegram w = Some ns /\ JS.WebApp_slot ns = JS.SObject tg)
  /\ (JS.trace (TelegramUtils.initTelegramWebApp w) = [JS.Expand]
      <-> exists ns tg r, JS.Telegram w = Some ns /\ JS.WebApp_slot ns = JS.SObject tg
                          /\ JS.expand tg = Some r)
  /\ (JS.trace (TelegramUtils.initTelegramWebApp w) = [JS.Expand]
      \/ JS.trace (TelegramUtils.initTelegramWebApp w) = []).
Proof.
  destruct (JS.Telegram w) as [ns|] eqn:Hns.
  - rewrite (initTelegramWebApp_present w ns Hns). cbn [JS.outcome JS.trace fst snd].
    split; [intros ns' H; inversion H; reflexivity|].
    destruct (JS.WebApp_slot ns) as [| |p|tg] eqn:Hslot; cbn [TelegramUtils.handle_of].
    + split; [split; [discriminate | intros [H|[ns' [H1 H2]]]; [discriminate H|];
                      inversion H1; subst ns'; rewrite Hslot in H2; discriminate H2]|].
      split; [split; [intros _; exists ns; split; [reflexivity | exact Hslot]
                     | reflexivity]|].
      split; [intro tg'; split; [discriminate|];
              intros [ns' [H1 H2]]; inversion H1; subst ns'; rewrite Hslot in H2;
              discriminate H2|].
      split; [|right; reflexivity].
      split; [discriminate|]. intros [ns' [tg' [r [H1 [H2 _]]]]].
      inversion H1; subst ns'. rewrite Hslot in H2. discriminate H2.
    + split; [split; [intros _; right; exists ns; split; [reflexivity | exact Hslot]
                     | reflexivity]|].
      split; [split; [discriminate|];
              intros [ns' [H1 H2]]; inversion H1; subst ns'; rewrite Hslot in H2;
              discriminate H2|].
      split; [intro tg'; split; [discriminate|];
              intros [ns' [H1 H2]]; inversion H1; subst ns'; rewrite Hslot in H2;
              discriminate H2|].
      split; [|right; reflexivity].
      split; [discriminate|]. intros [ns' [tg' [r [H1 [H2 _]]]]].
      inversion H1; subst ns'. rewrite Hslot in H2. discriminate H2.
    + split; [split; [discriminate | intros [H|[ns' [H1 H2]]]; [discriminate H|];
                      inversion H1; subst ns'; rewrite Hslot in H2; discriminate H2]|].
      split; [split; [discriminate|];
              intros [ns' [H1 H2]]; inversion H1; subst ns'; rewrite Hslot in H2;
              discriminate H2|].
      split; [intro tg'; split; [discriminate|];
              intros [ns' [H1 H2]]; inversion H1; subst ns'; rewrite Hslot in H2;
              discriminate H2|].
      split; [|right; reflexivity].
      split; [discriminate|]. intros [ns' [tg' [r [H1 [H2 _]]]]].
      inversion H1; subst ns'. rewrite Hslot in H2. discriminate H2.
    + split; [split; [discriminate | intros [H|[ns' [H1 H2]]]; [discriminate H|];
                      inversion H1; subst ns'; rewrite Hslot in H2; discriminate H2]|].
      split; [split; [discriminate|];
              intros [ns' [H1 H2]]; inversion H1; subst ns'; rewrite Hslot in H2;
              discriminate H2|].
      split; [intro tg'; split;
              [intro H; inversion H; subst tg'; exists ns; split;
               [reflexivity | exact Hslot]
              | intros [ns' [H1 H2]]; inversion H1; subst ns'; rewrite Hslot in H2;
                inversion H2; reflexivity]|].
      destruct (JS.expand tg) as [r|] eqn:Hr.
      * split; [|left; reflexivity].
        split; [intros _; exists ns, tg, r; repeat split; assumption | reflexivity].
      * split; [|right; reflexivity].
        split; [discriminate|]. intros [ns' [tg' [r [H1 [H2 H3]]]]].
        inversion H1; subst ns'. rewrite Hslot in H2. inversion H2; subst tg'.
        rewrite Hr in H3. discriminate H3.
  - assert (E : TelegramUtils.initTelegramWebApp w = ([], JS.Normal TelegramUtils.HNull))
      by (unfold TelegramUtils.initTelegramWebApp; now rewrite Hns).
    rewrite E. cbn [JS.outcome JS.trace fst snd].
    split; [intros ns H; discriminate H|].
    split; [split; [intros _; left; reflexivity | reflexivity]|].
    split; [split; [discriminate | intros [ns [H _]]; discriminate H]|].
    split; [intro tg; split; [discriminate | intros [ns [H _]]; discriminate H]|].
    split; [|right; reflexivity].
    split; [discriminate | intros [ns [tg [r [H _]]]]; discriminate H].
Qed.

(** X11.  [sendDataToBot] calls the bridge's [sendData] exactly when the
    bridge is there, has that method, and [JSON.stringify(data)] returns;
    it warns on the console exactly when the bridge is absent; and it makes
    at most one call on the host in all, never [expand()], [ready()] or a
    navigation. *)
Theorem sendDataToBot_calls (w : JS.Window) (data : JS.value) :
  (existsb JS.is_sendData (JS.trace (TelegramUtils.sendDataToBot w data)) = true
   <-> exists tg send json,
         JS.optional_WebApp w = Some tg /\ JS.sendData tg = Some send
         /\ JS.JSON_stringify data = JS.Normal json)
  /\ (In (JS.ConsoleWarn "Telegram WebApp not available.")
         (JS.trace (TelegramUtils.sendDataToBot w data))
      <-> JS.optional_WebApp w = None)
  /\ List.length (JS.trace (TelegramUtils.sendDataToBot w data)) <= 1
  /\ forallb (fun e => match e with
                       | JS.SendData _ | JS.ConsoleWarn _ => true
                       | _ => false
                       end)
             (JS.trace (TelegramUtils.sendDataToBot w data)) = true.
Proof.
  destruct (JS.optional_WebApp w) as [tg|] eqn:Htg.
  - rewrite (sendDataToBot_present w tg data Htg).
    destruct (JS.JSON_stringify data) as [json|e] eqn:Hjson.
    + unfold TelegramUtils.call_sendData.
      destruct (JS.sendData tg) as [send|] eqn:Hsend; cbn [JS.trace JS.throw fst].
      * split; [split; [intros _; exists tg, send, json; repeat split; assumption
                       | reflexivity]|].
        split; [split; [intros [H|[]]; discriminate H | discriminate]|].
        split; [apply le_n | reflexivity].
      * split; [split; [discriminate|]|].
        { intros [tg' [send [json' [H1 [H2 _]]]]]. inversion H1; subst tg'.
          rewrite Hsend in H2. discriminate H2. }
        split; [split; [intros [] | discriminate]|].
        split; [apply Nat.le_0_l | reflexivity].
    + cbn [JS.trace fst].
      split; [split; [discriminate|]|].
      { intros [tg' [send [json' [_ [_ H3]]]]]. discriminate H3. }
      split; [split; [intros [] | discriminate]|].
      split; [apply Nat.le_0_l | reflexivity].
  - rewrite (sendDataToBot_absent w data Htg). cbn [JS.trace fst].
    split; [split; [discriminate | intros [tg [send [json [H _]]]]; discriminate H]|].
    split; [split; [reflexivity | intros _; left; reflexivity]|].
    split; [apply le_n | reflexivity].
Qed.

(** ** src/App.jsx: the effect, the handler after it, and the cards *)

Section MountFacts.
Import JS.

(** The effect, case by case of what the host provides. *)
Lemma mount_effect_cases (w : Window) :
  (optional_WebApp w = None /\ App.mount_effect w = ([], Normal None))
  \/ (exists tg, optional_WebApp w = Some tg /\
        ((expand tg = None
          /\ App.mount_effect w = ([], Throw (TypeError "tgw.expand is not a function")))
         \/ (exists e, expand tg = Some (Throw e)
                       /\ App.mount_effect w = ([Expand], Throw e))
         \/ (expand tg = Some (Normal tt) /\ ready tg = None
             /\ App.mount_effect w
                = ([Expand], Throw (TypeError "tgw.ready is not a function")))
         \/ (exists e, expand tg = Some (Normal tt) /\ ready tg = Some (Throw e)
                       /\ App.mount_effect w = ([Expand; Ready], Throw e))
         \/ (expand tg = Some (Normal tt) /\ ready tg = Some (Normal tt)
             /\ App.mount_effect w = ([Expand; Ready], Normal (Some tg))))).
Proof.
  unfold App.mount_effect.
  destruct (optional_WebApp w) as [tg|]; [right; exists tg; split; [reflexivity|] | left; split; reflexivity].
  destruct (expand tg) as [[[]|e]|].
  - destruct (ready tg) as [[[]|e]|].
    + right; right; right; right. repeat split; reflexivity.
    + right; right; right; left. exists e. repeat split; reflexivity.
    + right; right; left. repeat split; reflexivity.
  - right; left. exists e. split; reflexivity.
  - left. split; reflexivity.
Qed.

End MountFacts.

(** X12.  The effect that runs when the App mounts leaves the bridge in
    the state exactly when the bridge is there and both [expand()] and
    [ready()] return; it leaves null exactly when the bridge is absent.  It
    calls [ready()] only after [expand()] has returned, and calls nothing
    else on the host.  An [expand()] that throws is not caught here, while
    [initTelegramWebApp] catches it. *)
Theorem mount_effect_state (w : JS.Window) :
  (forall tg,
      JS.outcome (App.mount_effect w) = JS.Normal (Some tg)
      <-> JS.optional_WebApp w = Some tg
          /\ JS.expand tg = Some (JS.Normal tt) /\ JS.ready tg = Some (JS.Normal tt))
  /\ (JS.outcome (App.mount_effect w) = JS.Normal None <-> JS.optional_WebApp w = None)
  /\ (In JS.Ready (JS.trace (App.mount_effect w)) ->
      JS.trace (App.mount_effect w) = [JS.Expand; JS.Ready])
  /\ forallb Views.is_bridge_setup (JS.trace (App.mount_effect w)) = true
  /\ (forall tg e,
        JS.optional_WebApp w = Some tg -> JS.expand tg = Some (JS.Throw e) ->
        App.mount_effect w = ([JS.Expand], JS.Throw e)
        /\ TelegramUtils.initTelegramWebApp w
           = ([JS.Expand], JS.Normal (TelegramUtils.HObject tg))).
Proof.
  assert (Hinit : forall tg e,
            JS.optional_WebApp w = Some tg -> JS.expand tg = Some (JS.Throw e) ->
            TelegramUtils.initTelegramWebApp w
            = ([JS.Expand], JS.Normal (TelegramUtils.HObject tg))).
  { intros tg e Htg He. exact (initTelegramWebApp_optional w tg (JS.Throw e) Htg He). }
  destruct (mount_effect_cases w)
    as [[Hno E] | [tg [Htg [[He E] | [[e [He E]] | [[He [Hr E]] | [[e [He [Hr E]]]
                                                                  | [He [Hr E]]]]]]]]];
    rewrite E; cbn [JS.outcome JS.trace fst snd]; rewrite ?Hno, ?Htg.
  - split; [intro tg; split; [discriminate | intros [H _]; discriminate H]|].
    split; [split; reflexivity|].
    split; [intros []|]. split; [reflexivity|]. intros tg e H. discriminate H.
  - split; [intro tg'; split; [discriminate|]|].
    { intros [H1 [H2 _]]. inversion H1; subst tg'. rewrite He in H2. discriminate H2. }
    split; [split; discriminate|].
    split; [intros []|]. split; [reflexivity|].
    intros tg' e' H1 H2. inversion H1; subst tg'. rewrite He in H2. discriminate H2.
  - split; [intro tg'; split; [discriminate|]|].
    { intros [H1 [H2 _]]. inversion H1; subst tg'. rewrite He in H2. discriminate H2. }
    split; [split; discriminate|].
    split; [intros [H|[]]; discriminate H|]. split; [reflexivity|].
    intros tg' e' H1 H2. inversion H1; subst tg'. rewrite He in H2. inversion H2; subst e'.
    split; [reflexivity | exact (Hinit tg e Htg He)].
  - split; [intro tg'; split; [discriminate|]|].
    { intros [H1 [_ H3]]. inversion H1; subst tg'. rewrite Hr in H3. discriminate H3. }
    split; [split; discriminate|].
    split; [intros [H|[]]; discriminate H|]. split; [reflexivity|].
    intros tg' e' H1 H2. inversion H1; subst tg'. rewrite He in H2. discriminate H2.
  - split; [intro tg'; split; [discriminate|]|].
    { intros [H1 [_ H3]]. inversion H1; subst tg'. rewrite Hr in H3. discriminate H3. }
    split; [split; discriminate|].
    split; [reflexivity|]. split; [reflexivity|].
    intros tg' e' H1 H2. inversion H1; subst tg'. rewrite He in H2. discriminate H2.
  - split; [intro tg'; split|].
    { intro H. inversion H; subst tg'. repeat split; assumption. }
    { intros [H1 _]. inversion H1. reflexivity. }
    split; [split; discriminate|].
    split; [reflexivity|]. split; [reflexivity|].
    intros tg' e' H1 H2. inversion H1; subst tg'. rewrite He in H2. discriminate H2.
Qed.

(** X13.  The pay handler uses the bridge the effect found at mount.  With
    the bot username set: in a plain browser the click opens the link with
    [window.open] in a new tab; inside Telegram, after [expand()] and
    [ready()] have returned, it opens it with the bridge's
    [openTelegramLink], or with [window.open] when the bridge has no such
    method; and a link is opened exactly when the effect has not thrown. *)
Theorem mount_then_pay_link (w : JS.Window) (name : string)
        (Hset : name <> EmptyString) :
  (JS.optional_WebApp w = None ->
     Views.mount_then_pay w (Some name)
     = ([JS.WindowOpen ("https://t.me/" ++ name ++ "?start=BUY_PRO") "_blank"],
        JS.Normal tt))
  /\ (forall tg,
        JS.optional_WebApp w = Some tg ->
        JS.expand tg = Some (JS.Normal tt) -> JS.ready tg = Some (JS.Normal tt) ->
        JS.trace (Views.mount_then_pay w (Some name))
        = [JS.Expand; JS.Ready;
           match JS.openTelegramLink tg with
           | Some _ => JS.OpenTelegramLink ("https://t.me/" ++ name ++ "?start=BUY_PRO")
           | None => JS.WindowOpen ("https://t.me/" ++ name ++ "?start=BUY_PRO") "_blank"
           end])
  /\ (existsb JS.is_navigation (JS.trace (Views.mount_then_pay w (Some name))) = true
      <-> exists s, JS.outcome (App.mount_effect w) = JS.Normal s).
Proof.
  assert (Hpay :
            Views.mount_then_pay w (Some name)
            = match App.mount_effect w with
              | (tr, JS.Normal s) =>
                  ((tr ++ JS.trace (App.openInChatPay (Some name) s))%list,
                   JS.outcome (App.openInChatPay (Some name) s))
              | (tr, JS.Throw e) => (tr, JS.Throw e)
              end).
  { unfold Views.mount_then_pay, JS.bind.
    destruct (App.mount_effect w) as [tr [s|e]]; [|reflexivity].
    destruct (App.openInChatPay (Some name) s) as [tr' r]. reflexivity. }
  rewrite Hpay. clear Hpay.
  destruct (mount_effect_cases w)
    as [[Hno E] | [tg [Htg [[He E] | [[e [He E]] | [[He [Hr E]] | [[e [He [Hr E]]]
                                                                  | [He [Hr E]]]]]]]]];
    rewrite E; cbn [JS.outcome JS.trace fst snd]; rewrite ?Hno, ?Htg.
  - rewrite (openInChatPay_set name None Hset).
    split; [intros _; unfold App.openInChatPay; destruct name; [now elim Hset | reflexivity]|].
    split; [intros tg H; discriminate H|].
    split; [intros _; eexists; reflexivity | reflexivity].
  - split; [discriminate|].
    split; [intros tg' H1 H2; inversion H1; subst tg'; rewrite He in H2; discriminate H2|].
    split; [discriminate | intros [s H]; discriminate H].
  - split; [discriminate|].
    split; [intros tg' H1 H2; inversion H1; subst tg'; rewrite He in H2; discriminate H2|].
    split; [discriminate | intros [s H]; discriminate H].
  - split; [discriminate|].
    split; [intros tg' H1 _ H3; inversion H1; subst tg'; rewrite Hr in H3; discriminate H3|].
    split; [discriminate | intros [s H]; discriminate H].
  - split; [discriminate|].
    split; [intros tg' H1 _ H3; inversion H1; subst tg'; rewrite Hr in H3; discriminate H3|].
    split; [discriminate | intros [s H]; discriminate H].
  - rewrite (openInChatPay_set name (Some tg) Hset). cbn [app].
    split; [discriminate|].
    split; [intros tg' H1 _ _; inversion H1; subst tg'; unfold App.pay_event;
            destruct (JS.openTelegramLink tg); reflexivity|].
    cbn [existsb JS.is_navigation orb].
    rewrite (proj1 (pay_event_navigates (Some tg) _)).
    split; [intros _; eexists; reflexivity | reflexivity].
Qed.

Lemma mount_then_pay_link_witness :
  "daaskobot" <> EmptyString
  /\ JS.trace (Views.mount_then_pay (Hosts.inside_telegram Hosts.full_bridge)
                                    (Some "daaskobot"))
     = [JS.Expand; JS.Ready; JS.OpenTelegramLink "https://t.me/daaskobot?start=BUY_PRO"]
  /\ Views.mount_then_pay Hosts.plain_browser (Some "daaskobot")
     = ([JS.WindowOpen "https://t.me/daaskobot?start=BUY_PRO" "_blank"], JS.Normal tt).
Proof.
  assert (Hset : "daaskobot" <> EmptyString) by discriminate.
  split; [exact Hset|]. split.
  - exact (proj1 (proj2 (mount_then_pay_link (Hosts.inside_telegram Hosts.full_bridge)
                           "daaskobot" Hset))
             Hosts.full_bridge eq_refl eq_refl eq_refl).
  - exact (proj1 (mount_then_pay_link Hosts.plain_browser "daaskobot" Hset) eq_refl).
Defined.

Section LinkFacts.
Import JS.

Lemma window_open_inj (u1 u2 t : string) :
  [WindowOpen u1 t] = [WindowOpen u2 t] -> u1 = u2.
Proof. intro H. now inversion H. Qed.

Lemma some_url_inj (u1 u2 : string) : [Some u1] = [Some u2] -> u1 = u2.
Proof. intro H. now inversion H. Qed.

Lemma plan_link_inj (name c1 c2 : string) :
  "https://t.me/" ++ name ++ "?start=BUY_PRO_" ++ c1
  = "https://t.me/" ++ name ++ "?start=BUY_PRO_" ++ c2 -> c1 = c2.
Proof.
  intro H. apply append_cancel in H. apply append_cancel in H.
  now apply append_cancel in H.
Qed.

Lemma plan_link_not_app_link (name code : string) :
  "https://t.me/" ++ name ++ "?start=BUY_PRO_" ++ code
  <> "https://t.me/" ++ name ++ "?start=BUY_PRO".
Proof.
  intro H. apply append_cancel in H. apply append_cancel in H. discriminate H.
Qed.

End LinkFacts.

(** X14.  The links tell the bot which button was pressed: for a set bot
    username, two plan buttons open the same link only if their codes are
    equal, so the cards of the plans page open pairwise different links;
    and no plan link, whatever its code, is the link of the App's Pro
    button. *)
Theorem pay_links_distinct (name : string) (Hset : name <> EmptyString) :
  (forall c1 c2,
      JS.trace (Plans.openInChat (Some name) c1) = JS.trace (Plans.openInChat (Some name) c2) ->
      c1 = c2)
  /\ NoDup (map (fun c => JS.trace (Plans.card_onClick c))
                (Plans.SubscriptionPlans (Some name)))
  /\ (forall code tg,
        map JS.navigated_url (JS.trace (Plans.openInChat (Some name) code))
        <> map JS.navigated_url (JS.trace (App.openInChatPay (Some name) tg))).
Proof.
  assert (Hinj : forall c1 c2,
            JS.trace (Plans.openInChat (Some name) c1)
            = JS.trace (Plans.openInChat (Some name) c2) -> c1 = c2).
  { intros c1 c2. rewrite !(openInChat_set name _ Hset). unfold JS.trace, fst.
    intro H. apply window_open_inj in H. exact (plan_link_inj name c1 c2 H). }
  split; [exact Hinj|]. split.
  - unfold Plans.SubscriptionPlans, Plans.plans. cbn [map Plans.card_onClick Plans.code].
    constructor; [|constructor; [intros [] | constructor]].
    intros [H|[]]. apply Hinj in H. discriminate H.
  - intros code tg. rewrite (openInChat_set name code Hset).
    rewrite (openInChatPay_set name tg Hset). unfold JS.trace at 1. unfold fst, map.
    rewrite (proj2 (pay_event_navigates tg _)). unfold JS.navigated_url.
    intro H. apply some_url_inj in H. exact (plan_link_not_app_link name code H).
Qed.

Lemma pay_links_distinct_witness :
  "daaskobot" <> EmptyString
  /\ NoDup (map (fun c => JS.trace (Plans.card_onClick c))
                (Plans.SubscriptionPlans (Some "daaskobot"))).
Proof.
  assert (Hset : "daaskobot" <> EmptyString) by discriminate.
  split; [exact Hset | exact (proj1 (proj2 (pay_links_distinct "daaskobot" Hset)))].
Defined.

(** X15.  A [Card] shows each feature once, in the order given, under the
    keys 0, 1, 2, ..., which are pairwise different whatever the list; its
    button runs the [onClick] it was given, and its background and text
    colours differ in both the primary and the secondary style. *)
Theorem card_lists_features (p : App.card_props) :
  map snd (Views.items (Views.Card p)) = App.features p
  /\ map fst (Views.items (Views.Card p)) = seq 0 (List.length (App.features p))
  /\ NoDup (map fst (Views.items (Views.Card p)))
  /\ Views.handler (Views.action (Views.Card p)) = App.onClick p
  /\ Views.label (Views.action (Views.Card p)) = App.cta p
  /\ Views.background (Views.action (Views.Card p))
     <> Views.color (Views.action (Views.Card p)).
Proof.
  assert (Hidx : forall l i,
            map snd (Views.map_indexed i l) = l
            /\ map fst (Views.map_indexed i l) = seq i (List.length l)).
  { induction l as [|f l IH]; intro i; [split; reflexivity|].
    cbn [Views.map_indexed map fst snd List.length seq].
    destruct (IH (S i)) as [H1 H2]. now rewrite H1, H2. }
  cbn [Views.Card Views.items Views.action Views.handler Views.label
       Views.background Views.color].
  destruct (Hidx (App.features p) 0) as [H1 H2].
  split; [exact H1|]. split; [exact H2|].
  split; [rewrite H2; apply seq_NoDup|].
  split; [reflexivity|]. split; [reflexivity|].
  destruct (App.secondary p); discriminate.
Qed.

(** ** db/schema.sql: users without a tenant *)

Section TenantlessUsers.
Import Schema Relational Invariants.

Lemma existsb_none {A : Type} (f : A -> bool) (l : list A) :
  (forall x, In x l -> f x = false) -> existsb f l = false.
Proof.
  intro H. destruct (existsb f l) eqn:E; [|reflexivity].
  apply existsb_exists in E. destruct E as [x [Hx Hfx]].
  rewrite (H x Hx) in Hfx. discriminate Hfx.
Qed.

Lemma users_id_admits (c : column) (n : N) :
  In c (tbl_columns users) -> col_name c = "id" -> column_admits c (Vuuid n) = true.
Proof.
  intros Hc Hname. cbn [users tbl_columns] in Hc.
  repeat (destruct Hc as [<-|Hc]; [try discriminate Hname; reflexivity|]).
  destruct Hc.
Qed.

Lemma users_references_null_tenant (db : database) (r : row) :
  field r "tenant_id" = Vnull -> references_resolve db users r = true.
Proof.
  intro Hnull. unfold references_resolve. apply forallb_forall. intros fk Hfk.
  vm_compute in Hfk.
  repeat (destruct Hfk as [<-|Hfk];
          [cbn [fk_table fk_col tbl_name users String.eqb Ascii.eqb Bool.eqb negb orb];
           rewrite ?Hnull; reflexivity|]).
  destruct Hfk.
Qed.

(** X6.  The UNIQUE constraint of users on (tenant_id, tg_user_id) does
    not reach users without a tenant: once a user row with a NULL
    tenant_id has been accepted, the same row under a fresh id is accepted
    again, the same tg_user_id included. *)
Theorem tenantless_users_repeat
        (db db1 : database) (r : row) (n : N)
        (Hins : insert db "users" r = Some db1)
        (Hnull : field r "tenant_id" = Vnull)
        (Hfresh : forall x, In x (db1 "users") -> field x "id" <> Vuuid n) :
  exists db2, insert db1 "users" (("id", Vuuid n) :: r) = Some db2.
Proof.
  apply insert_accepts in Hins. destruct Hins as (t0 & Hfind & Hadm & _ & _ & Hdb1).
  change (find_table schema "users") with (Some users) in Hfind.
  injection Hfind as <-.
  unfold insert. change (find_table schema "users") with (Some users). cbv iota.
  assert (H1 : row_admitted users (("id", Vuuid n) :: r) = true).
  { unfold row_admitted in *. apply andb_prop in Hadm. destruct Hadm as [Hcols Hnames].
    apply andb_true_intro. split.
    - apply forallb_forall. intros c Hc.
      pose proof (proj1 (forallb_forall _ _) Hcols c Hc) as Hold. cbv beta in Hold.
      cbn [field]. destruct (String.eqb_spec "id" (col_name c)) as [Heq|_];
        [apply users_id_admits; [exact Hc | symmetry; exact Heq] | exact Hold].
    - cbn [forallb fst]. exact Hnames. }
  assert (H2 : keys_free users (db1 "users") (("id", Vuuid n) :: r) = true).
  { unfold keys_free.
    change (key_columns users) with [["id"]; ["tenant_id"; "tg_user_id"]].
    cbn [forallb]. rewrite andb_true_r. apply andb_true_intro. split.
    - apply negb_true_iff. apply existsb_none. intros x Hx.
      unfold same_on. cbn [forallb field String.eqb Ascii.eqb Bool.eqb is_null negb andb].
      rewrite andb_true_r.
      destruct (value_eqb (Vuuid n) (field x "id")) eqn:E; [|reflexivity].
      apply value_eqb_eq in E. exfalso. apply (Hfresh x Hx). now symmetry.
    - apply negb_true_iff. apply existsb_none. intros x _.
      unfold same_on. cbn [forallb field String.eqb Ascii.eqb Bool.eqb].
      rewrite Hnull. reflexivity. }
  assert (H3 : references_resolve db1 users (("id", Vuuid n) :: r) = true)
    by (apply users_references_null_tenant; exact Hnull).
  rewrite H1, H2, H3. eexists. reflexivity.
Qed.

End TenantlessUsers.

Lemma tenantless_users_repeat_witness :
  match Relational.insert Fixtures.two_tenants "users"
          [("id", Schema.Vuuid 13); ("tg_user_id", Schema.Vbigint 5001)] with
  | Some db1 =>
      exists db2,
        Relational.insert db1 "users"
          (("id", Schema.Vuuid 14)
           :: [("id", Schema.Vuuid 13); ("tg_user_id", Schema.Vbigint 5001)])
        = Some db2
  | None => False
  end.
Proof.
  destruct (Relational.insert Fixtures.two_tenants "users"
              [("id", Schema.Vuuid 13); ("tg_user_id", Schema.Vbigint 5001)])
    as [db1|] eqn:Hins.
  - apply (tenantless_users_repeat Fixtures.two_tenants db1 _ 14 Hins eq_refl).
    intros x Hx. apply insert_accepts in Hins.
    destruct Hins as (_ & _ & _ & _ & _ & ->).
    vm_compute in Hx. destruct Hx as [<-|[<-|[<-|[]]]]; discriminate.
  - vm_compute in Hins. discriminate Hins.
Defined.
